(** * wiretrustee: the peer-connection engine and the configuration file

    A shallow embedding of [connection/engine.go] and [cmd/config.go].

    The engine is modelled the way it is written: a mutable connection map
    guarded by one mutex, connections living behind pointers, and every
    operation a sequence of primitive effects.  Goroutines are modelled at
    the granularity of what one goroutine does between two points where it
    can be interleaved with the others. *)

From Stdlib Require Import ZArith QArith Qround Ascii String List Lia Lqa Bool.
From Stdlib Require Import Decimal DecimalFacts DecimalN.
From stdpp Require Import base option list gmap strings pretty.

Local Open Scope string_scope.
Local Open Scope Z_scope.

(** ** Values of the Go runtime *)

(** A Go [error] value; [None] is [nil].  Every error of the engine comes
    from [fmt.Errorf] or from a collaborator and is carried as its text. *)
Definition error : Type := string.

(** A [*Connection]: [nil] or the address of a connection on the heap. *)
Inductive ptr : Type :=
| nil_ptr
| Ref (a : nat).

Global Instance ptr_eq_dec : EqDecision ptr.
Proof. solve_decision. Defined.

(** A [[]byte]. *)
Definition bytes : Type := list Byte.byte.

(** ** Collaborators outside the repository

    [wgtypes] (WireGuard keys) and [pion/ice] are third-party packages: the
    engine only parses, prints and passes their values around, so they are
    taken as interfaces. *)

Class WgTypes : Type := {
  Key : Type;
  (** [wgtypes.ParseKey]: the key and an error; on error the key is the zero key *)
  ParseKey : string -> Key * option error;
  (** [Key.String] *)
  KeyString : Key -> string
}.

Class Ice : Type := {
  URL : Type;
  Candidate : Type;
  (** [ice.UnmarshalCandidate] *)
  UnmarshalCandidate : bytes -> Candidate + error
}.

(** ** Data model *)

(** [type Peer struct] *)
Record Peer : Type := mkPeer {
  WgPubKey : string;
  WgAllowedIps : string
}.

(** [sProto.Body_Type] *)
Inductive Body_Type : Type := Body_OFFER | Body_ANSWER | Body_CANDIDATE.

(** [sProto.Body] and [sProto.Message] *)
Record Body : Type := mkBody {
  BodyType : Body_Type;
  Payload : bytes
}.

(** [Body] is a pointer in the generated code: [None] is a message
    without a body. *)
Record Message : Type := mkMessage {
  MsgKey : string;
  MsgRemoteKey : string;
  MsgBody : option Body
}.

(** [signal.Credential] and the engine's [IceCredentials] *)
Record Credential : Type := mkCredential {
  UFrag : string;
  Pwd : string
}.

Record IceCredentials : Type := mkIceCredentials {
  uFrag : string;
  pwd : string
}.

(** The signal package of the repository is not among the sources; the
    routing handler only uses its credential decoder. *)
Class Signal : Type := {
  (** [signal.UnMarshalCredential] *)
  UnMarshalCredential : Message -> Credential + error
}.

(** Modelled from the spec: the states of a Connection (section 4.2),
    whose declaration is in connection.go, not among the sources. *)
Inductive Status : Type :=
| StatusNew
| StatusNegotiating
| StatusConnected
| StatusClosed
| StatusFailed.

Global Instance Status_eq_dec : EqDecision Status.
Proof. solve_decision. Defined.

(** ** The retry policy

    [github.com/cenkalti/backoff/v4] is a third-party package; this is its
    exponential policy and its [Retry] loop as [InitializePeer] uses them.
    A [time.Duration] is a number of nanoseconds.  The two factors are
    [float64] in the package and exact rationals here. *)

Definition Millisecond : Z := 1000000.
Definition Second : Z := 1000000000.

Record ExponentialBackOff : Type := mkExponentialBackOff {
  InitialInterval : Z;
  RandomizationFactor : Q;
  Multiplier : Q;
  MaxInterval : Z;
  MaxElapsedTime : Z;
  Stop : Z;
  currentInterval : Z
}.

Definition DefaultInitialInterval : Z := 500 * Millisecond.
Definition DefaultRandomizationFactor : Q := 1 # 2.
Definition DefaultMultiplier : Q := 3 # 2.
(** [backoff.Stop] *)
Definition backoff_Stop : Z := -1.

(** The conversion [time.Duration(x)] of a float: towards zero *)
Definition duration_of (x : Q) : Z := Z.quot (Qnum x) (Zpos (Qden x)).

(** [rand.Float64()]: [n / 2^53] for the 53 random bits [n] *)
Definition Float64_of_bits (n : Z) : Q := Qmake (n mod 2 ^ 53) (2 ^ 53).

(** [getRandomValueFromInterval] *)
Definition getRandomValueFromInterval (randomizationFactor random : Q)
    (currentInterval : Z) : Z :=
  let delta := (randomizationFactor * inject_Z currentInterval)%Q in
  let minInterval := (inject_Z currentInterval - delta)%Q in
  let maxInterval := (inject_Z currentInterval + delta)%Q in
  duration_of (minInterval + random * (maxInterval - minInterval + 1))%Q.

(** [incrementCurrentInterval] *)
Definition incrementCurrentInterval (b : ExponentialBackOff) : ExponentialBackOff :=
  let next :=
    if Qle_bool (inject_Z (MaxInterval b) / Multiplier b) (inject_Z (currentInterval b))
    then MaxInterval b
    else duration_of (inject_Z (currentInterval b) * Multiplier b)%Q in
  mkExponentialBackOff (InitialInterval b) (RandomizationFactor b) (Multiplier b)
    (MaxInterval b) (MaxElapsedTime b) (Stop b) next.

(** [Reset]; the start time it also records is the origin of [elapsed] below *)
Definition Reset (b : ExponentialBackOff) : ExponentialBackOff :=
  mkExponentialBackOff (InitialInterval b) (RandomizationFactor b) (Multiplier b)
    (MaxInterval b) (MaxElapsedTime b) (Stop b) (InitialInterval b).

(** [NextBackOff], given what the clock and the random source give:
    [elapsed] is [GetElapsedTime()], [bits] the random bits. *)
Definition NextBackOff (b : ExponentialBackOff) (elapsed bits : Z)
    : Z * ExponentialBackOff :=
  if negb (MaxElapsedTime b =? 0) && (MaxElapsedTime b <? elapsed)
  then (Stop b, b)
  else (getRandomValueFromInterval (RandomizationFactor b) (Float64_of_bits bits)
          (currentInterval b),
        incrementCurrentInterval b).

(** The policy that [InitializePeer] builds; [currentInterval] is set by
    [Reset] when [Retry] starts. *)
Definition backOff : ExponentialBackOff :=
  {| InitialInterval := DefaultInitialInterval;
     RandomizationFactor := DefaultRandomizationFactor;
     Multiplier := DefaultMultiplier;
     MaxInterval := 5 * Second;
     MaxElapsedTime := 0;
     Stop := backoff_Stop;
     currentInterval := 0 |}.

(** What holds of that policy at every turn of the loop. *)
Definition policy_inv (b : ExponentialBackOff) : Prop :=
  MaxElapsedTime b = 0 /\ MaxInterval b = 5 * Second /\
  Multiplier b = DefaultMultiplier /\
  RandomizationFactor b = DefaultRandomizationFactor /\
  0 < currentInterval b <= 5 * Second.

Section EngineModel.
Context {WG : WgTypes} {ICE : Ice} {SIG : Signal}.

(** [ConnConfig], with the fields that [openPeerConnection] fills in. *)
Record ConnConfig : Type := mkConnConfig {
  WgListenAddr : string;
  WgPeerIP : string;
  WgIface : string;
  WgAllowedIPs : string;
  WgKey : Key;
  RemoteWgKey : Key;
  StunTurnURLS : list URL;
  iFaceBlackList : gset string
}.

(** A Connection as the engine sees it: its configuration and its status. *)
Record Connection : Type := mkConnection {
  Config : ConnConfig;
  ConnStatus : Status
}.

(** [type Engine struct]: [conns] is the connection map, [PeerMux] is
    [true] while the mutex is locked.  The signal client is a collaborator
    and keeps no state here. *)
Record Engine : Type := mkEngine {
  stunsTurns : list URL;
  conns : gmap string ptr;
  wgIface : string;
  wgIP : string;
  e_iFaceBlackList : gset string;
  PeerMux : bool
}.

(** The effects of a goroutine that the properties below are about, newest
    first in a trace.  A map access records whether the mutex was held when
    it ran. *)
Inductive Event : Type :=
| EvLock
| EvUnlock
| EvMapRead (held : bool) (k : string)
| EvMapWrite (held : bool) (k : string) (c : ptr)
| EvMapDelete (held : bool) (k : string)
| EvNewConnection (a : nat)
| EvOpen (a : nat)
| EvClose (a : nat)
| EvOnOffer (a : nat) (cred : IceCredentials)
| EvOnAnswer (a : nat) (cred : IceCredentials)
| EvOnRemoteCandidate (a : nat) (c : Candidate).

(** The engine, the connections behind their addresses (address = index),
    and the trace of effects so far. *)
Record World : Type := mkWorld {
  engine : Engine;
  heap : list Connection;
  trace : list Event
}.

(** ** The effect monad

    A computation runs on a world and gives a result and the next world, or
    gives nothing: the goroutine panics (nil dereference, unlock of an
    unlocked mutex) or blocks for ever on the mutex. *)
Definition M (A : Type) : Type := World -> option (A * World).

#[global] Instance M_ret : MRet M := fun A a w => Some (a, w).
#[global] Instance M_bind : MBind M :=
  fun A B f m w => match m w with Some (a, w') => f a w' | None => None end.

Definition log (ev : Event) : M unit :=
  fun w => Some (tt, mkWorld (engine w) (heap w) (ev :: trace w)).

Definition get_engine : M Engine := fun w => Some (engine w, w).

(** Field updates of the engine. *)
Definition with_conns (m : gmap string ptr) (e : Engine) : Engine :=
  mkEngine (stunsTurns e) m (wgIface e) (wgIP e) (e_iFaceBlackList e) (PeerMux e).

Definition with_mux (b : bool) (e : Engine) : Engine :=
  mkEngine (stunsTurns e) (conns e) (wgIface e) (wgIP e) (e_iFaceBlackList e) b.

Definition set_conns (m : gmap string ptr) : M unit :=
  fun w => Some (tt, mkWorld (with_conns m (engine w)) (heap w) (trace w)).

Definition set_mux (b : bool) : M unit :=
  fun w => Some (tt, mkWorld (with_mux b (engine w)) (heap w) (trace w)).

Definition panic {A : Type} : M A := fun _ => None.

(** [e.PeerMux.Lock()]: blocks while the mutex is held. *)
Definition Lock : M unit :=
  e ← get_engine;
  if PeerMux e then panic else (set_mux true;; log EvLock).

(** [e.PeerMux.Unlock()]: a runtime error when the mutex is not held. *)
Definition Unlock : M unit :=
  e ← get_engine;
  if PeerMux e then (set_mux false;; log EvUnlock) else panic.

(** [defer d] around a body that returns normally. *)
Definition defer {A : Type} (d : M unit) (body : M A) : M A :=
  r ← body; d;; mret r.

(** [v, ok := e.conns[k]] *)
Definition conns_lookup (k : string) : M (ptr * bool) :=
  e ← get_engine;
  log (EvMapRead (PeerMux e) k);;
  mret (match conns e !! k with
        | Some c => (c, true)
        | None => (nil_ptr, false)
        end).

(** [v := e.conns[k]]: the zero value [nil] when the key is absent *)
Definition conns_index (k : string) : M ptr :=
  r ← conns_lookup k; mret (fst r).

(** [e.conns[k] = c] *)
Definition conns_store (k : string) (c : ptr) : M unit :=
  e ← get_engine;
  log (EvMapWrite (PeerMux e) k c);;
  set_conns (<[k := c]> (conns e)).

(** [delete(e.conns, k)] *)
Definition conns_delete (k : string) : M unit :=
  e ← get_engine;
  log (EvMapDelete (PeerMux e) k);;
  set_conns (delete k (conns e)).

(** Reading and writing a connection through its pointer. *)
Definition deref (a : nat) : M Connection :=
  fun w => match heap w !! a with Some c => Some (c, w) | None => None end.

Definition set_status (a : nat) (s : Status) : M unit :=
  fun w =>
    match heap w !! a with
    | Some c => Some (tt, mkWorld (engine w)
                                  (<[a := mkConnection (Config c) s]> (heap w))
                                  (trace w))
    | None => None
    end.

Definition alloc (c : Connection) : M nat :=
  fun w => Some (length (heap w), mkWorld (engine w) (heap w ++ [c]) (trace w)).

(** ** The Connection, as far as the engine drives it *)

(** Modelled from the spec: NewConnection of connection.go builds a
    Connection in state New that keeps the configuration it is given.  The
    three signaling callbacks it also takes ([signalOffer], [signalAnswer],
    [signalCandidate]) close over the two keys and the signal client only,
    never over the connection map, and are left out. *)
Definition NewConnection (config : ConnConfig) : M nat :=
  a ← alloc (mkConnection config StatusNew);
  log (EvNewConnection a);;
  mret a.

(** Modelled from the spec: Connection.Close tears the connection down and
    moves it to Closed; it is idempotent and reports no error. *)
Definition Close (a : nat) : M (option error) :=
  log (EvClose a);;
  set_status a StatusClosed;;
  mret None.

(** Modelled from the spec: Connection.OnOffer and Connection.OnAnswer
    record the remote credentials while the connection is New or
    Negotiating and reject the call with a state error otherwise. *)
Definition OnOffer (a : nat) (cred : IceCredentials) : M (option error) :=
  log (EvOnOffer a cred);;
  c ← deref a;
  match ConnStatus c with
  | StatusNew | StatusNegotiating => set_status a StatusNegotiating;; mret None
  | _ => mret (Some "offer rejected in the current state")
  end.

Definition OnAnswer (a : nat) (cred : IceCredentials) : M (option error) :=
  log (EvOnAnswer a cred);;
  c ← deref a;
  match ConnStatus c with
  | StatusNew | StatusNegotiating => set_status a StatusNegotiating;; mret None
  | _ => mret (Some "answer rejected in the current state")
  end.

(** Modelled from the spec: Connection.OnRemoteCandidate accepts a
    candidate at any time before Closed. *)
Definition OnRemoteCandidate (a : nat) (cand : Candidate) : M (option error) :=
  log (EvOnRemoteCandidate a cand);;
  c ← deref a;
  match ConnStatus c with
  | StatusClosed => mret (Some "candidate for a closed connection")
  | _ => mret None
  end.

(** Modelled from the spec: Connection.Open starts the negotiation and
    blocks; [Open_begin] is what it does before it blocks, [Open_end] what
    it does when it stops waiting.  [outcome] is what the wait ended with
    ([None]: a usable path, [Some err]: the timeout or a failure).  A
    connection closed meanwhile stays Closed and Open reports an error. *)
Definition Open_begin (a : nat) : M unit :=
  log (EvOpen a);;
  c ← deref a;
  match ConnStatus c with
  | StatusNew => set_status a StatusNegotiating
  | _ => mret tt
  end.

Definition Open_end (a : nat) (outcome : option error) : M (option error) :=
  c ← deref a;
  match ConnStatus c with
  | StatusClosed => mret (Some "connection has been closed")
  | _ =>
      match outcome with
      | None => set_status a StatusConnected;; mret None
      | Some err => set_status a StatusFailed;; mret (Some err)
      end
  end.

(** ** The engine *)

(** [const PeerConnectionTimeout = 60 * time.Second] *)
Definition PeerConnectionTimeout : Z := 60 * Second.

(** [NewEngine] *)
Definition NewEngine (stunsTurns : list URL) (wgIface wgAddr : string)
    (iFaceBlackList : gset string) : Engine :=
  mkEngine stunsTurns ∅ wgIface wgAddr iFaceBlackList false.

Definition NewWorld (e : Engine) : World := mkWorld e [] [].

(** [RemovePeerConnection] *)
Definition RemovePeerConnection (peer : Peer) : M (option error) :=
  Lock;;
  defer Unlock (
    r ← conns_lookup (WgPubKey peer);
    match r with
    | (Ref a, true) =>
        conns_delete (WgPubKey peer);;
        Close a
    | _ => mret None
    end).

(** [GetPeerConnectionStatus]: the pointer [&conn.Status], written as the
    connection it points into, or [nil] *)
Definition GetPeerConnectionStatus (peerKey : string) : M ptr :=
  Lock;;
  defer Unlock (
    r ← conns_lookup peerKey;
    match r with
    | (Ref a, true) => mret (Ref a)
    | _ => mret nil_ptr
    end).

(** [openPeerConnection], from [e.PeerMux.Lock()] to [e.PeerMux.Unlock()] *)
Definition registerConnection (wgPort : Z) (myKey : Key) (peer : Peer) : M nat :=
  Lock;;
  let remoteKey := fst (ParseKey (WgPubKey peer)) in
  e ← get_engine;
  let connConfig :=
    {| WgListenAddr := "127.0.0.1:" +:+ pretty wgPort;
       WgPeerIP := wgIP e;
       WgIface := wgIface e;
       WgAllowedIPs := WgAllowedIps peer;
       WgKey := myKey;
       RemoteWgKey := remoteKey;
       StunTurnURLS := stunsTurns e;
       iFaceBlackList := e_iFaceBlackList e |} in
  conn ← NewConnection connConfig;
  conns_store (KeyString remoteKey) (Ref conn);;
  Unlock;;
  mret conn.

(** The [switch msg.GetBody().Type] of the handler below, for the
    connection [a] that the message was routed to. *)
Definition dispatch (a : nat) (msg : Message) : M (option error) :=
  match MsgBody msg with
  | None => panic
  | Some body =>
      match BodyType body with
      | Body_OFFER =>
          match UnMarshalCredential msg with
          | inr err => mret (Some err)
          | inl remoteCred =>
              err ← OnOffer a (mkIceCredentials (UFrag remoteCred) (Pwd remoteCred));
              match err with
              | Some err => mret (Some err)
              | None => mret None
              end
          end
      | Body_ANSWER =>
          match UnMarshalCredential msg with
          | inr err => mret (Some err)
          | inl remoteCred =>
              err ← OnAnswer a (mkIceCredentials (UFrag remoteCred) (Pwd remoteCred));
              match err with
              | Some err => mret (Some err)
              | None => mret None
              end
          end
      | Body_CANDIDATE =>
          match UnmarshalCandidate (Payload body) with
          | inr err => mret (Some err)
          | inl candidate =>
              err ← OnRemoteCandidate a candidate;
              match err with
              | Some err => mret (Some err)
              | None => mret None
              end
          end
      end
  end.

(** The test [conn.Config.RemoteWgKey.String() != msg.Key] *)
Definition key_mismatch (c : Connection) (msg : Message) : bool :=
  negb (String.eqb (KeyString (RemoteWgKey (Config c))) (MsgKey msg)).

(** The handler that [receiveSignal] registers with the signal client. *)
Definition receiveSignal_handler (msg : Message) : M (option error) :=
  conn ← conns_index (MsgKey msg);
  match conn with
  | nil_ptr => mret (Some ("wrongly addressed message " +:+ MsgKey msg))
  | Ref a =>
      c ← deref a;
      if key_mismatch c msg
      then mret (Some ("unknown peer " +:+ MsgKey msg))
      else dispatch a msg
  end.

(** Modelled from the spec: the signal client's Receive calls the handler
    once per inbound message, in arrival order; an error of the handler is
    logged and the stream goes on (section 6). *)
Fixpoint Receive (handler : Message -> M (option error)) (msgs : list Message)
    : M unit :=
  match msgs with
  | [] => mret tt
  | msg :: msgs' => handler msg;; Receive handler msgs'
  end.

(** [receiveSignal], on the messages that arrive *)
Definition receiveSignal (msgs : list Message) : M unit :=
  Receive receiveSignal_handler msgs.

(** The closure [operation] of [InitializePeer], after its call of
    [openPeerConnection] has returned [err]. *)
Definition operation_check (peer : Peer) (err : option error) : M (option error) :=
  Lock;;
  defer Unlock (
    r ← conns_lookup (WgPubKey peer);
    if negb (snd r) then mret None
    else
      match err with
      | Some err => mret (Some err)
      | None => mret None
      end).

(** ** Interleaving

    What another goroutine can do to the shared world while this one is
    blocked or between two of its critical sections: one of the pieces
    above, run to its end. *)
Inductive Step : Type :=
| StepRegister (wgPort : Z) (myKey : Key) (peer : Peer)
| StepOpenBegin (a : nat)
| StepOpenEnd (a : nat) (outcome : option error)
| StepCheck (peer : Peer) (err : option error)
| StepRemove (peer : Peer)
| StepStatus (peerKey : string)
| StepSignal (msg : Message).

Definition run_step (s : Step) : M unit :=
  match s with
  | StepRegister wgPort myKey peer => registerConnection wgPort myKey peer;; mret tt
  | StepOpenBegin a => Open_begin a
  | StepOpenEnd a outcome => Open_end a outcome;; mret tt
  | StepCheck peer err => operation_check peer err;; mret tt
  | StepRemove peer => RemovePeerConnection peer;; mret tt
  | StepStatus peerKey => GetPeerConnectionStatus peerKey;; mret tt
  | StepSignal msg => receiveSignal_handler msg;; mret tt
  end.

Fixpoint run_steps (l : list Step) : M unit :=
  match l with
  | [] => mret tt
  | s :: l' => run_step s;; run_steps l'
  end.

(** [conn.Open(timeout)] with what the other goroutines do while it blocks *)
Record OpenOracle : Type := mkOpenOracle {
  during : list Step;
  outcome : option error
}.

Definition Open (a : nat) (timeout : Z) (o : OpenOracle) : M (option error) :=
  Open_begin a;;
  run_steps (during o);;
  Open_end a (outcome o).

(** [openPeerConnection] *)
Definition openPeerConnection (wgPort : Z) (myKey : Key) (peer : Peer)
    (o : OpenOracle) : M (ptr * option error) :=
  conn ← registerConnection wgPort myKey peer;
  err ← Open conn PeerConnectionTimeout o;
  match err with
  | Some err => mret (nil_ptr, Some err)
  | None => mret (Ref conn, None)
  end.

(** One run of the closure [operation]: the attempt, what the others do
    before this goroutine gets the mutex again, and the check. *)
Record Attempt : Type := mkAttempt {
  open_oracle : OpenOracle;
  before_check : list Step
}.

Definition operation (wgPort : Z) (myKey : Key) (peer : Peer) (att : Attempt)
    : M (option error) :=
  r ← openPeerConnection wgPort myKey peer (open_oracle att);
  run_steps (before_check att);;
  operation_check peer (snd r).

(** One turn of the loop of [backoff.Retry], with what the world gives it:
    the attempt, the readings of the clock and of the random source for
    [NextBackOff], and what the other goroutines do during the sleep. *)
Record Round : Type := mkRound {
  attempt : Attempt;
  elapsed : Z;
  random_bits : Z;
  sleeping : list Step
}.

(** The [for] loop of [backoff.Retry].  The result is [Some err] when the
    loop has returned [err], and [None] when it is still running after the
    rounds given.  The errors of the engine are not [PermanentError]s. *)
Fixpoint RetryLoop (operation : Attempt -> M (option error))
    (b : ExponentialBackOff) (rounds : list Round) : M (option (option error)) :=
  match rounds with
  | [] => mret None
  | rd :: rounds' =>
      err ← operation (attempt rd);
      match err with
      | None => mret (Some None)
      | Some e =>
          let nb := NextBackOff b (elapsed rd) (random_bits rd) in
          if fst nb =? backoff_Stop then mret (Some (Some e))
          else run_steps (sleeping rd);; RetryLoop operation (snd nb) rounds'
      end
  end.

(** [backoff.Retry] *)
Definition Retry (operation : Attempt -> M (option error))
    (b : ExponentialBackOff) (rounds : list Round) : M (option (option error)) :=
  RetryLoop operation (Reset b) rounds.

(** [InitializePeer]: [Some tt] when it has returned, [None] when it is
    still retrying after the rounds given; it panics on an error of [Retry]. *)
Definition InitializePeer (wgPort : Z) (myKey : Key) (peer : Peer)
    (rounds : list Round) : M (option unit) :=
  r ← Retry (operation wgPort myKey peer) backOff rounds;
  match r with
  | Some (Some err) => panic
  | Some None => mret (Some tt)
  | None => mret None
  end.

(** ** Frames: what a piece of code can change *)

(** [h'] has every connection of [h], with the same configuration. *)
Definition heap_ext (h h' : list Connection) : Prop :=
  forall a c, h !! a = Some c -> exists c', h' !! a = Some c' /\ Config c' = Config c.

(** A computation that leaves the engine alone and keeps every connection
    and its configuration: it can only change statuses and the trace. *)
Definition conn_only {A : Type} (m : M A) : Prop :=
  forall w r w', m w = Some (r, w') ->
    engine w' = engine w /\ heap_ext (heap w) (heap w').

(** ** Invariants of the engine *)

(** Every entry of the map points to a connection on the heap, and that
    connection was configured with the key the entry is stored under. *)
Definition conns_wf (w : World) : Prop :=
  forall k p, conns (engine w) !! k = Some p ->
    exists a c, p = Ref a /\ heap w !! a = Some c /\
                KeyString (RemoteWgKey (Config c)) = k.

(** Between two critical sections the mutex is free. *)
Definition inv (w : World) : Prop :=
  PeerMux (engine w) = false /\ conns_wf w.

(** The worlds the engine can be in: [NewEngine], then any interleaving of
    the goroutines' steps. *)
Inductive reachable : World -> Prop :=
| reachable_new stunsTurns wgIface wgAddr iFaceBlackList :
    reachable (NewWorld (NewEngine stunsTurns wgIface wgAddr iFaceBlackList))
| reachable_step w s w' :
    reachable w -> run_step s w = Some (tt, w') -> reachable w'.

(** A computation that only adds events to the trace. *)
Definition trace_ext {A : Type} (m : M A) : Prop :=
  forall v r v', m v = Some (r, v') -> exists evs, trace v' = (evs ++ trace v)%list.

(** The key of the map that a step writes, if it writes one. *)
Definition step_key (s : Step) : option string :=
  match s with
  | StepRegister _ _ peer => Some (KeyString (fst (ParseKey (WgPubKey peer))))
  | StepRemove peer => Some (WgPubKey peer)
  | _ => None
  end.

(** [openPeerConnection] up to the point where [conn.Open] blocks. *)
Definition blocked_in_Open (wgPort : Z) (myKey : Key) (peer : Peer) : M nat :=
  conn ← registerConnection wgPort myKey peer;
  Open_begin conn;;
  mret conn.

(** The mutex discipline on a trace: every access to the connection map
    ran with the mutex held. *)
Definition guarded_event (ev : Event) : bool :=
  match ev with
  | EvMapRead held _ => held
  | EvMapWrite held _ _ => held
  | EvMapDelete held _ => held
  | _ => true
  end.

Definition guarded (t : list Event) : bool := forallb guarded_event t.

End EngineModel.

(** ** The collaborators, for running the engine on examples

    [wgtypes]: a key is 32 bytes, written in base64 with padding.
    [ParseKey] is [base64.StdEncoding.DecodeString] followed by the length
    check of [NewKey]; the decoder skips CR and LF and does not insist on
    zero trailing bits. *)

Definition b64_alphabet : list ascii :=
  list_ascii_of_string
    "ABCDEFGHIJKLMNOPQRSTUVWXYZabcdefghijklmnopqrstuvwxyz0123456789+/".

Definition b64_char (n : N) : ascii := nth (N.to_nat n) b64_alphabet "A"%char.

Fixpoint b64_index (c : ascii) (l : list ascii) (i : N) : option N :=
  match l with
  | [] => None
  | x :: l' => if Ascii.eqb c x then Some i else b64_index c l' (N.succ i)
  end.

Definition b64_sextet (c : ascii) : option N := b64_index c b64_alphabet 0%N.

Definition is_pad (c : ascii) : bool := Ascii.eqb c "="%char.

Definition is_newline (c : ascii) : bool :=
  Ascii.eqb c "010"%char || Ascii.eqb c "013"%char.

Fixpoint b64_encode (l : list N) : list ascii :=
  match l with
  | [] => []
  | [a] => [b64_char (a / 4); b64_char (a mod 4 * 16); "="%char; "="%char]
  | [a; b] =>
      [b64_char (a / 4); b64_char (a mod 4 * 16 + b / 16);
       b64_char (b mod 16 * 4); "="%char]
  | a :: b :: c :: rest =>
      b64_char (a / 4) :: b64_char (a mod 4 * 16 + b / 16)
        :: b64_char (b mod 16 * 4 + c / 64) :: b64_char (c mod 64)
        :: b64_encode rest
  end%N.

Fixpoint b64_decode (l : list ascii) : option (list N) :=
  match l with
  | [] => Some []
  | a :: b :: c :: d :: rest =>
      match b64_sextet a, b64_sextet b with
      | Some x, Some y =>
          if is_pad c then
            if is_pad d && bool_decide (rest = []) then Some [x * 4 + y / 16]%N
            else None
          else
            match b64_sextet c with
            | None => None
            | Some z =>
                if is_pad d then
                  if bool_decide (rest = [])
                  then Some [x * 4 + y / 16; y mod 16 * 16 + z / 4]%N
                  else None
                else
                  match b64_sextet d, b64_decode rest with
                  | Some t, Some tl =>
                      Some ((x * 4 + y / 16) :: (y mod 16 * 16 + z / 4)
                              :: (z mod 4 * 64 + t) :: tl)%N
                  | _, _ => None
                  end
            end
      | _, _ => None
      end
  | _ => None
  end.

Definition zero_key : list N := repeat 0%N 32.

Definition wg_ParseKey (s : string) : list N * option error :=
  match b64_decode (filter (fun c => negb (is_newline c)) (list_ascii_of_string s)) with
  | None => (zero_key, Some "wgtypes: failed to parse base64-encoded key")
  | Some b =>
      if (length b =? 32)%nat then (b, None)
      else (zero_key, Some "wgtypes: incorrect key size")
  end.

Definition wg_KeyString (k : list N) : string :=
  string_of_list_ascii (b64_encode k).

Definition wgtypes_model : WgTypes :=
  {| Key := list N; ParseKey := wg_ParseKey; KeyString := wg_KeyString |}.

(** [pion/ice]: a candidate is kept as its text; [UnmarshalCandidate]
    rejects a text of fewer than 8 fields, the first check of the package. *)
Fixpoint count_fields (l : list ascii) (in_field : bool) : nat :=
  match l with
  | [] => 0
  | c :: l' =>
      if Ascii.eqb c " "%char then count_fields l' false
      else if in_field then count_fields l' true
      else S (count_fields l' true)
  end.

Definition ice_UnmarshalCandidate (raw : bytes) : string + error :=
  let s := string_of_list_byte raw in
  if (count_fields (list_ascii_of_string s) false <? 8)%nat
  then inr "attribute not long enough to be ICE candidate"
  else inl s.

Definition ice_model : Ice :=
  {| URL := string; Candidate := string;
     UnmarshalCandidate := ice_UnmarshalCandidate |}.

(** [signal]: the payload of an OFFER or ANSWER is [ufrag:pwd]. *)
Fixpoint split_colon (l : list ascii) (cur : list ascii) : list string :=
  match l with
  | [] => [string_of_list_ascii (rev cur)]
  | c :: l' =>
      if Ascii.eqb c ":"%char
      then string_of_list_ascii (rev cur) :: split_colon l' []
      else split_colon l' (c :: cur)
  end.

Definition signal_UnMarshalCredential (msg : Message) : Credential + error :=
  match MsgBody msg with
  | None => inr "error parsing message body"
  | Some body =>
      match split_colon (list_ascii_of_string (string_of_list_byte (Payload body))) [] with
      | [u; p] => inl (mkCredential u p)
      | _ => inr "error parsing message body"
      end
  end.

Definition signal_model : Signal :=
  {| UnMarshalCredential := signal_UnMarshalCredential |}.

Section ExampleWorlds.
#[local] Existing Instance wgtypes_model.
#[local] Existing Instance ice_model.
#[local] Existing Instance signal_model.

(** Two keys, two peers and an engine to run on. *)
Definition keyA : list N := repeat 1%N 32.
Definition keyB : list N := repeat 2%N 32.

Definition kB : string := "AgICAgICAgICAgICAgICAgICAgICAgICAgICAgICAgI=".

Definition peerB : Peer := mkPeer kB "10.30.30.2/32".

(** A peer whose public key is not the text of a key. *)
Definition peerX : Peer := mkPeer "not-a-key" "10.30.30.3/32".

(** [peerB] with a line feed after its key, as a key read from a file has
    it: [ParseKey] gives the key of [peerB], and [Key.String] gives [kB]. *)
Definition kB_newline : string := kB +:+ String (ascii_of_N 10) "".

Definition peerB_newline : Peer := mkPeer kB_newline "10.30.30.2/32".

Definition engine0 : Engine :=
  NewEngine [] "wt0" "10.30.30.1/24" ∅.

Definition world0 : World :=
  NewWorld engine0.

(** The world that a computation leaves. *)
Definition after {A : Type} (m : M A) (w : World) : World :=
  match m w with
  | Some (_, w') => w'
  | None => w
  end.

(** [peerB] registered, its Open blocked; then its Open succeeded. *)
Definition register_B : Step := StepRegister 51820 keyA peerB.

Definition world_registered : World := after (run_step register_B) world0.

Definition world_blocked : World :=
  after (blocked_in_Open 51820 keyA peerB) world0.

Definition world_connected : World :=
  after (Open_end 0 None) world_blocked.

(** Messages: an OFFER from a key without connection, an OFFER from
    [peerB], and two CANDIDATE messages from [peerB]. *)
Definition kA : string := "AQEBAQEBAQEBAQEBAQEBAQEBAQEBAQEBAQEBAQEBAQE=".

Definition offer_from_unknown : Message :=
  mkMessage kA kB (Some (mkBody Body_OFFER (list_byte_of_string "ufragA:pwdA"))).

Definition offer_from_B : Message :=
  mkMessage kB kA (Some (mkBody Body_OFFER (list_byte_of_string "ufragB:pwdB"))).

Definition bad_candidate : Message :=
  mkMessage kB kA (Some (mkBody Body_CANDIDATE (list_byte_of_string "garbage"))).

Definition good_candidate_text : string :=
  "candidate:1 1 udp 2130706431 192.168.1.7 51820 typ host".

Definition good_candidate : Message :=
  mkMessage kB kA
    (Some (mkBody Body_CANDIDATE (list_byte_of_string good_candidate_text))).

End ExampleWorlds.

(** ** [encoding/json], for the types of the configuration

    The configuration file is written with [json.Marshal] and read with
    [json.Unmarshal].  Both are driven by the Go type of the value; this is
    what they do for strings, [int]s, slices, pointers and structs with
    exported fields and no tags.  A text is a sequence of bytes. *)

Module json.

Local Open Scope char_scope.
Local Open Scope N_scope.
Local Open Scope list_scope.

Definition text : Type := list ascii.

(** The double quote, byte 34 *)
Abbreviation QUOTE := (Ascii false true false false false true false false).


Definition code (c : ascii) : N := N_of_ascii c.

Definition in_range (lo hi : N) (c : ascii) : bool :=
  (lo <=? code c) && (code c <=? hi).

(** *** UTF-8, as [utf8.DecodeRune] accepts it *)

Definition cont (c : ascii) : bool := in_range 0x80 0xBF c.

Definition lead2 (b1 : ascii) : bool := in_range 0xC2 0xDF b1.

Definition lead3 (b1 b2 : ascii) : bool :=
  (code b1 =? 0xE0) && in_range 0xA0 0xBF b2
  || in_range 0xE1 0xEC b1 && cont b2
  || (code b1 =? 0xED) && in_range 0x80 0x9F b2
  || in_range 0xEE 0xEF b1 && cont b2.

Definition lead4 (b1 b2 : ascii) : bool :=
  (code b1 =? 0xF0) && in_range 0x90 0xBF b2
  || in_range 0xF1 0xF3 b1 && cont b2
  || (code b1 =? 0xF4) && in_range 0x80 0x8F b2.

(** The encoding of one rune of two to four bytes at the head of [s], and
    what follows it; [None] when the head is not such an encoding. *)
Definition utf8_first (s : text) : option (text * text) :=
  match s with
  | b1 :: b2 :: r2 =>
      if lead2 b1 && cont b2 then Some ([b1; b2], r2)
      else
        match r2 with
        | b3 :: r3 =>
            if lead3 b1 b2 && cont b3 then Some ([b1; b2; b3], r3)
            else
              match r3 with
              | b4 :: r4 =>
                  if lead4 b1 b2 && cont b3 && cont b4
                  then Some ([b1; b2; b3; b4], r4)
                  else None
              | [] => None
              end
        | [] => None
        end
  | _ => None
  end.

(** A Go string that is valid UTF-8. *)
Inductive utf8_valid : text -> Prop :=
| utf8_valid_nil : utf8_valid []
| utf8_valid_ascii b s : code b < 0x80 -> utf8_valid s -> utf8_valid (b :: s)
| utf8_valid_seq seq rest :
    utf8_first (seq ++ rest) = Some (seq, rest) ->
    utf8_valid rest -> utf8_valid (seq ++ rest).

(** U+FFFD, the replacement rune *)
Definition replacement : text :=
  [ascii_of_N 0xEF; ascii_of_N 0xBF; ascii_of_N 0xBD].

(** [utf8.EncodeRune] *)
Definition utf8_encode (r : N) : text :=
  if r <? 0x80 then [ascii_of_N r]
  else if r <? 0x800 then
    [ascii_of_N (0xC0 + r / 64); ascii_of_N (0x80 + r mod 64)]
  else if (0xD800 <=? r) && (r <=? 0xDFFF) then replacement
  else if r <? 0x10000 then
    [ascii_of_N (0xE0 + r / 4096); ascii_of_N (0x80 + r / 64 mod 64);
     ascii_of_N (0x80 + r mod 64)]
  else if r <=? 0x10FFFF then
    [ascii_of_N (0xF0 + r / 262144); ascii_of_N (0x80 + r / 4096 mod 64);
     ascii_of_N (0x80 + r / 64 mod 64); ascii_of_N (0x80 + r mod 64)]
  else replacement.

(** *** Strings *)

Definition hex_digit (n : N) : ascii :=
  nth (N.to_nat n) (list_ascii_of_string "0123456789abcdef") "0".

(** [htmlSafeSet], on the bytes below [utf8.RuneSelf] *)
Definition html_safe (b : ascii) : bool :=
  (0x20 <=? code b)
  && negb (Ascii.eqb b QUOTE || Ascii.eqb b "\" || Ascii.eqb b "<"
           || Ascii.eqb b ">" || Ascii.eqb b "&").

(** What [encodeState.string] writes for a byte below [utf8.RuneSelf] *)
Definition enc_ascii (b : ascii) : text :=
  if html_safe b then [b]
  else if Ascii.eqb b "\" || Ascii.eqb b QUOTE then ["\"; b]
  else if code b =? 10 then ["\"; "n"]
  else if code b =? 13 then ["\"; "r"]
  else if code b =? 9 then ["\"; "t"]
  else ["\"; "u"; "0"; "0"; hex_digit (code b / 16); hex_digit (code b mod 16)].

Definition line_separator : text :=
  [ascii_of_N 0xE2; ascii_of_N 0x80; ascii_of_N 0xA8].
Definition paragraph_separator : text :=
  [ascii_of_N 0xE2; ascii_of_N 0x80; ascii_of_N 0xA9].

(** What it writes for a rune of several bytes *)
Definition enc_rune (seq : text) : text :=
  if bool_decide (seq = line_separator) then ["\"; "u"; "2"; "0"; "2"; "8"]
  else if bool_decide (seq = paragraph_separator) then ["\"; "u"; "2"; "0"; "2"; "9"]
  else seq.

(** The loop of [encodeState.string]; [fuel] bounds the number of turns. *)
Fixpoint enc_chars (fuel : nat) (s : text) : text :=
  match fuel, s with
  | S f, b :: r =>
      if code b <? 0x80 then (enc_ascii b ++ enc_chars f r)%list
      else
        match utf8_first s with
        | Some (seq, rest) => (enc_rune seq ++ enc_chars f rest)%list
        | None => ("\" :: "u" :: "f" :: "f" :: "f" :: "d" :: enc_chars f r)%list
        end
  | _, _ => []
  end.

Definition enc_string (s : string) : text :=
  let l := list_ascii_of_string s in
  ((QUOTE :: enc_chars (length l) l) ++ [QUOTE])%list.

Definition hex_val (c : ascii) : option N :=
  if in_range 48 57 c then Some (code c - 48)
  else if in_range 97 102 c then Some (code c - 87)
  else if in_range 65 70 c then Some (code c - 55)
  else None.

(** Four hexadecimal digits *)
Definition hex4 (l : text) : option (N * text) :=
  match l with
  | a :: b :: c :: d :: r =>
      match hex_val a, hex_val b, hex_val c, hex_val d with
      | Some x, Some y, Some z, Some t => Some (((x * 16 + y) * 16 + z) * 16 + t, r)
      | _, _, _, _ => None
      end
  | _ => None
  end.

(** [getu4]: the code unit of an escape [\uXXXX] at the head of [l] *)
Definition getu4 (l : text) : option (N * text) :=
  match l with
  | "\" :: "u" :: r => hex4 r
  | _ => None
  end.

(** The rune of the code unit [u], whose escape has been read, and what is
    left to read: a surrogate pair is one rune, a lone surrogate is U+FFFD. *)
Definition escaped_rune (u : N) (r : text) : N * text :=
  if (0xD800 <=? u) && (u <=? 0xDFFF) then
    match getu4 r with
    | Some (u2, r') =>
        if (u <? 0xDC00) && (0xDC00 <=? u2) && (u2 <=? 0xDFFF)
        then ((u - 0xD800) * 1024 + (u2 - 0xDC00) + 0x10000, r')
        else (0xFFFD, r)
    | None => (0xFFFD, r)
    end
  else (u, r).

(** The byte that a one-letter escape stands for *)
Definition simple_escape (e : ascii) : option ascii :=
  if Ascii.eqb e QUOTE || Ascii.eqb e "\" || Ascii.eqb e "/" then Some e
  else if Ascii.eqb e "b" then Some (ascii_of_N 8)
  else if Ascii.eqb e "f" then Some (ascii_of_N 12)
  else if Ascii.eqb e "n" then Some (ascii_of_N 10)
  else if Ascii.eqb e "r" then Some (ascii_of_N 13)
  else if Ascii.eqb e "t" then Some (ascii_of_N 9)
  else None.

Definition emit (out : text) (r : option (text * text)) : option (text * text) :=
  match r with
  | Some (s, rest) => Some ((out ++ s)%list, rest)
  | None => None
  end.

(** A string literal after its opening quote: the scanner's checks and
    [unquote] in one pass.  The result is the string and what follows the
    closing quote. *)
Fixpoint dec_chars (fuel : nat) (l : text) : option (text * text) :=
  match fuel, l with
  | S f, c :: r =>
      if Ascii.eqb c QUOTE then Some ([], r)
      else if Ascii.eqb c "\" then
        match r with
        | [] => None
        | e :: r' =>
            if Ascii.eqb e "u" then
              match hex4 r' with
              | Some (u, r'') =>
                  let (rr, r3) := escaped_rune u r'' in
                  emit (utf8_encode rr) (dec_chars f r3)
              | None => None
              end
            else
              match simple_escape e with
              | Some b => emit [b] (dec_chars f r')
              | None => None
              end
        end
      else if code c <? 0x20 then None
      else if code c <? 0x80 then emit [c] (dec_chars f r)
      else
        match utf8_first l with
        | Some (seq, rest) => emit seq (dec_chars f rest)
        | None => emit replacement (dec_chars f r)
        end
  | _, _ => None
  end.

(** *** The scanner *)

Definition is_ws (c : ascii) : bool :=
  Ascii.eqb c " " || (code c =? 9) || (code c =? 10) || (code c =? 13).

Fixpoint skip_ws (l : text) : text :=
  match l with
  | c :: l' => if is_ws c then skip_ws l' else l
  | [] => []
  end.

Definition starts_with (c : ascii) (l : text) : bool :=
  match l with
  | x :: _ => Ascii.eqb x c
  | [] => false
  end.

Definition lit_null (l : text) : option text :=
  match l with
  | "n" :: "u" :: "l" :: "l" :: r => Some r
  | _ => None
  end.

Definition lit_true (l : text) : option text :=
  match l with
  | "t" :: "r" :: "u" :: "e" :: r => Some r
  | _ => None
  end.

Definition lit_false (l : text) : option text :=
  match l with
  | "f" :: "a" :: "l" :: "s" :: "e" :: r => Some r
  | _ => None
  end.

(** *** Numbers *)

Fixpoint digits_of_uint (d : Decimal.uint) : text :=
  match d with
  | Decimal.Nil => []
  | Decimal.D0 d => "0" :: digits_of_uint d
  | Decimal.D1 d => "1" :: digits_of_uint d
  | Decimal.D2 d => "2" :: digits_of_uint d
  | Decimal.D3 d => "3" :: digits_of_uint d
  | Decimal.D4 d => "4" :: digits_of_uint d
  | Decimal.D5 d => "5" :: digits_of_uint d
  | Decimal.D6 d => "6" :: digits_of_uint d
  | Decimal.D7 d => "7" :: digits_of_uint d
  | Decimal.D8 d => "8" :: digits_of_uint d
  | Decimal.D9 d => "9" :: digits_of_uint d
  end.

Definition is_digit (c : ascii) : bool := in_range 48 57 c.

Definition digit_cons (c : ascii) (d : Decimal.uint) : Decimal.uint :=
  match code c with
  | 48 => Decimal.D0 d
  | 49 => Decimal.D1 d
  | 50 => Decimal.D2 d
  | 51 => Decimal.D3 d
  | 52 => Decimal.D4 d
  | 53 => Decimal.D5 d
  | 54 => Decimal.D6 d
  | 55 => Decimal.D7 d
  | 56 => Decimal.D8 d
  | _ => Decimal.D9 d
  end.

(** The longest run of digits at the head of [l] *)
Fixpoint scan_digits (l : text) : Decimal.uint * text :=
  match l with
  | c :: l' =>
      if is_digit c then
        let (d, r) := scan_digits l' in (digit_cons c d, r)
      else (Decimal.Nil, l)
  | [] => (Decimal.Nil, [])
  end.

(** The integer part of a JSON number: [0], or digits that do not start
    with [0] *)
Definition int_part_ok (d : Decimal.uint) : bool :=
  match d with
  | Decimal.Nil => false
  | Decimal.D0 Decimal.Nil => true
  | Decimal.D0 _ => false
  | _ => true
  end.

(** [strconv.AppendInt] in base 10 *)
Definition enc_int (z : Z) : text :=
  match z with
  | Z0 => ["0"]
  | Zpos p => digits_of_uint (N.to_uint (Npos p))
  | Zneg p => "-" :: digits_of_uint (N.to_uint (Npos p))
  end.

(** The range of [int] on a 64-bit platform *)
Definition int_range (z : Z) : Prop := (- 2 ^ 63 <= z < 2 ^ 63)%Z.

Definition in_int_range (z : Z) : bool :=
  ((- 2 ^ 63 <=? z) && (z <? 2 ^ 63))%Z.

(** A JSON number read into an [int]: the literal has to be an integer in
    range, a fraction or an exponent is a type error. *)
Definition dec_number_int (l : text) : option (Z * text) :=
  let neg := starts_with "-" l in
  let (d, r) := scan_digits (if neg then tl l else l) in
  if negb (int_part_ok d) then None
  else if starts_with "." r || starts_with "e" r || starts_with "E" r then None
  else
    let n := Z.of_N (N.of_uint d) in
    let z := if neg then (- n)%Z else n in
    if in_int_range z then Some (z, r) else None.

(** *** Skipping a value of any kind, for a key that names no field *)

Definition skip_frac (l : text) : option text :=
  match l with
  | "." :: l1 =>
      match scan_digits l1 with
      | (Decimal.Nil, _) => None
      | (_, r) => Some r
      end
  | _ => Some l
  end.

Definition skip_exp (l : text) : option text :=
  match l with
  | "e" :: l1 | "E" :: l1 =>
      let l2 := match l1 with
                | "+" :: l2 | "-" :: l2 => l2
                | _ => l1
                end in
      match scan_digits l2 with
      | (Decimal.Nil, _) => None
      | (_, r) => Some r
      end
  | _ => Some l
  end.

Definition skip_number (l : text) : option text :=
  let l1 := match l with
            | "-" :: l1 => l1
            | _ => l
            end in
  let (d, r) := scan_digits l1 in
  if int_part_ok d then
    match skip_frac r with
    | Some r' => skip_exp r'
    | None => None
    end
  else None.

Fixpoint skip_value (fuel : nat) (l : text) : option text :=
  match fuel with
  | O => None
  | S f =>
      let skip_elems :=
        fix skip_elems (n : nat) (l : text) : option text :=
          match n with
          | O => None
          | S n' =>
              match skip_value f l with
              | Some r =>
                  match skip_ws r with
                  | "," :: r' => skip_elems n' r'
                  | "]" :: r' => Some r'
                  | _ => None
                  end
              | None => None
              end
          end in
      let skip_members :=
        fix skip_members (n : nat) (l : text) : option text :=
          match n with
          | O => None
          | S n' =>
              match skip_ws l with
              | QUOTE :: r =>
                  match dec_chars (S (length r)) r with
                  | Some (_, r1) =>
                      match skip_ws r1 with
                      | ":" :: r2 =>
                          match skip_value f r2 with
                          | Some r3 =>
                              match skip_ws r3 with
                              | "," :: r4 => skip_members n' r4
                              | "}" :: r4 => Some r4
                              | _ => None
                              end
                          | None => None
                          end
                      | _ => None
                      end
                  | None => None
                  end
              | _ => None
              end
          end in
      match skip_ws l with
      | QUOTE :: r =>
          match dec_chars (S (length r)) r with
          | Some (_, r') => Some r'
          | None => None
          end
      | "[" :: r =>
          match skip_ws r with
          | "]" :: r' => Some r'
          | r1 => skip_elems (length r1) r1
          end
      | "{" :: r =>
          match skip_ws r with
          | "}" :: r' => Some r'
          | r1 => skip_members (length r1) r1
          end
      | "n" :: _ => lit_null (skip_ws l)
      | "t" :: _ => lit_true (skip_ws l)
      | "f" :: _ => lit_false (skip_ws l)
      | l1 => skip_number l1
      end
  end.

(** *** Decoding into a Go value

    A decoder takes the value that is there (the zero value in a fresh
    struct) and the text, and gives the value read and the text left.  A
    syntax error and a value of the wrong kind both give [None]. *)

Definition decoder (A : Type) : Type := A -> text -> option (A * text).

(** A [string]: [null] leaves it as it is. *)
Definition dec_string : decoder string :=
  fun cur l =>
    let l := skip_ws l in
    match lit_null l with
    | Some r => Some (cur, r)
    | None =>
        match l with
        | QUOTE :: r =>
            match dec_chars (S (length r)) r with
            | Some (s, r') => Some (string_of_list_ascii s, r')
            | None => None
            end
        | _ => None
        end
    end.

(** An [int]: [null] leaves it as it is. *)
Definition dec_int : decoder Z :=
  fun cur l =>
    let l := skip_ws l in
    match lit_null l with
    | Some r => Some (cur, r)
    | None => dec_number_int l
    end.

(** The elements of an array after the first [[]; each element is read
    into a zero value. *)
Fixpoint dec_elems {A : Type} (fuel : nat) (zero : A) (dec : decoder A)
    (l : text) : option (list A * text) :=
  match fuel with
  | O => None
  | S f =>
      match dec zero l with
      | Some (x, r) =>
          match skip_ws r with
          | "," :: r' =>
              match dec_elems f zero dec r' with
              | Some (xs, r'') => Some (x :: xs, r'')
              | None => None
              end
          | "]" :: r' => Some ([x], r')
          | _ => None
          end
      | None => None
      end
  end.

(** A slice: [null] makes it [nil], an array replaces it. *)
Definition dec_slice {A : Type} (zero : A) (dec : decoder A)
    : decoder (option (list A)) :=
  fun _ l =>
    let l := skip_ws l in
    match lit_null l with
    | Some r => Some (None, r)
    | None =>
        match l with
        | "[" :: r =>
            let r1 := skip_ws r in
            if starts_with "]" r1 then Some (Some [], tl r1)
            else
              match dec_elems (length r1) zero dec r1 with
              | Some (xs, r') => Some (Some xs, r')
              | None => None
              end
        | _ => None
        end
    end.

(** A pointer: [null] makes it [nil]; a value is read into what it points
    to, or into a new zero value when it is [nil]. *)
Definition dec_ptr {A : Type} (zero : A) (dec : decoder A) : decoder (option A) :=
  fun cur l =>
    let l := skip_ws l in
    match lit_null l with
    | Some r => Some (None, r)
    | None =>
        match dec (default zero cur) l with
        | Some (x, r) => Some (Some x, r)
        | None => None
        end
    end.

(** The members of an object after its [{]: the value of a key that names
    a field is read into that field, the value of another key is skipped. *)
Fixpoint dec_members {S : Type} (fuel : nat)
    (field : string -> option (decoder S)) (cur : S) (l : text)
    : option (S * text) :=
  match fuel with
  | O => None
  | S f =>
      match skip_ws l with
      | QUOTE :: r =>
          match dec_chars (Datatypes.S (length r)) r with
          | Some (k, r1) =>
              match skip_ws r1 with
              | ":" :: r2 =>
                  let read :=
                    match field (string_of_list_ascii k) with
                    | Some d => d cur r2
                    | None =>
                        match skip_value (Datatypes.S (length r2)) r2 with
                        | Some r3 => Some (cur, r3)
                        | None => None
                        end
                    end in
                  match read with
                  | Some (cur', r3) =>
                      match skip_ws r3 with
                      | "," :: r4 => dec_members f field cur' r4
                      | "}" :: r4 => Some (cur', r4)
                      | _ => None
                      end
                  | None => None
                  end
              | _ => None
              end
          | None => None
          end
      | _ => None
      end
  end.

(** A struct: [null] leaves it as it is. *)
Definition dec_object {S : Type} (field : string -> option (decoder S))
    : decoder S :=
  fun cur l =>
    let l := skip_ws l in
    match lit_null l with
    | Some r => Some (cur, r)
    | None =>
        match l with
        | "{" :: r =>
            match skip_ws r with
            | "}" :: r' => Some (cur, r')
            | r1 => dec_members (length r1) field cur r1
            end
        | _ => None
        end
    end.

(** A key names a field when it is the name of the field, the case of the
    letters left aside. *)
Definition lower (c : ascii) : ascii :=
  if in_range 65 90 c then ascii_of_N (code c + 32) else c.

Definition fold_eq (k name : string) : bool :=
  bool_decide (map lower (list_ascii_of_string k)
               = map lower (list_ascii_of_string name)).

(** *** Encoding a Go value *)

Fixpoint enc_elems {A : Type} (enc : A -> text) (l : list A) : text :=
  match l with
  | [] => []
  | [x] => enc x
  | x :: l' => (enc x ++ "," :: enc_elems enc l')%list
  end.

(** A slice: [null] when it is [nil] *)
Definition enc_slice {A : Type} (enc : A -> text) (s : option (list A)) : text :=
  match s with
  | None => ["n"; "u"; "l"; "l"]
  | Some l => ("[" :: enc_elems enc l ++ ["]"])%list
  end.

(** A pointer: [null] when it is [nil] *)
Definition enc_ptr {A : Type} (enc : A -> text) (p : option A) : text :=
  match p with
  | None => ["n"; "u"; "l"; "l"]
  | Some x => enc x
  end.




(** One member of an object *)
Definition enc_member (name : string) (value : text) : text :=
  (enc_string name ++ ":" :: value)%list.

End json.

(** ** [cmd/config.go] *)

Module cmd.

Import json.
Local Open Scope list_scope.

(** [ice.URL] of pion/ice, whose two enumerations are [int]s *)
Record URL : Type := mkURL {
  Scheme : Z;
  Host : string;
  Port : Z;
  Username : string;
  Password : string;
  Proto : Z
}.

(** [type Config struct]; a slice is [None] when it is [nil], and so is a
    pointer *)
Record Config : Type := mkConfig {
  PrivateKey : string;
  Peers : option (list Peer);
  StunTurnURLs : option (list (option URL));
  SignalAddr : string;
  WgAddr : string;
  WgIface : string;
  IFaceBlackList : option (list string)
}.

Definition zero_Peer : Peer := mkPeer "" "".
Definition zero_URL : URL := mkURL 0 "" 0 "" "" 0.
Definition zero_Config : Config := mkConfig "" None None "" "" "" None.

(** [json.Marshal] of the three structs *)
Definition enc_Peer (p : Peer) : text :=
  ("{"%char :: enc_member "WgPubKey" (enc_string (WgPubKey p))
    ++ ","%char :: enc_member "WgAllowedIps" (enc_string (WgAllowedIps p))
    ++ ["}"%char])%list.

Definition enc_URL (u : URL) : text :=
  ("{"%char :: enc_member "Scheme" (enc_int (Scheme u))
    ++ ","%char :: enc_member "Host" (enc_string (Host u))
    ++ ","%char :: enc_member "Port" (enc_int (Port u))
    ++ ","%char :: enc_member "Username" (enc_string (Username u))
    ++ ","%char :: enc_member "Password" (enc_string (Password u))
    ++ ","%char :: enc_member "Proto" (enc_int (Proto u))
    ++ ["}"%char])%list.

Definition Marshal (cfg : Config) : text :=
  ("{"%char :: enc_member "PrivateKey" (enc_string (PrivateKey cfg))
    ++ ","%char :: enc_member "Peers" (enc_slice enc_Peer (Peers cfg))
    ++ ","%char :: enc_member "StunTurnURLs"
                     (enc_slice (enc_ptr enc_URL) (StunTurnURLs cfg))
    ++ ","%char :: enc_member "SignalAddr" (enc_string (SignalAddr cfg))
    ++ ","%char :: enc_member "WgAddr" (enc_string (WgAddr cfg))
    ++ ","%char :: enc_member "WgIface" (enc_string (WgIface cfg))
    ++ ","%char :: enc_member "IFaceBlackList"
                     (enc_slice enc_string (IFaceBlackList cfg))
    ++ ["}"%char])%list.

(** Reading a member into its field *)
Definition into {S A : Type} (get : S -> A) (set : A -> S -> S)
    (dec : decoder A) : decoder S :=
  fun cur l =>
    match dec (get cur) l with
    | Some (v, r) => Some (set v cur, r)
    | None => None
    end.

Definition Peer_field (k : string) : option (decoder Peer) :=
  if fold_eq k "WgPubKey" then
    Some (into WgPubKey (fun v p => mkPeer v (WgAllowedIps p)) dec_string)
  else if fold_eq k "WgAllowedIps" then
    Some (into WgAllowedIps (fun v p => mkPeer (WgPubKey p) v) dec_string)
  else None.

Definition dec_Peer : decoder Peer := dec_object Peer_field.

Definition URL_field (k : string) : option (decoder URL) :=
  if fold_eq k "Scheme" then
    Some (into Scheme
            (fun v u => mkURL v (Host u) (Port u) (Username u) (Password u) (Proto u))
            dec_int)
  else if fold_eq k "Host" then
    Some (into Host
            (fun v u => mkURL (Scheme u) v (Port u) (Username u) (Password u) (Proto u))
            dec_string)
  else if fold_eq k "Port" then
    Some (into Port
            (fun v u => mkURL (Scheme u) (Host u) v (Username u) (Password u) (Proto u))
            dec_int)
  else if fold_eq k "Username" then
    Some (into Username
            (fun v u => mkURL (Scheme u) (Host u) (Port u) v (Password u) (Proto u))
            dec_string)
  else if fold_eq k "Password" then
    Some (into Password
            (fun v u => mkURL (Scheme u) (Host u) (Port u) (Username u) v (Proto u))
            dec_string)
  else if fold_eq k "Proto" then
    Some (into Proto
            (fun v u => mkURL (Scheme u) (Host u) (Port u) (Username u) (Password u) v)
            dec_int)
  else None.

Definition dec_URL : decoder URL := dec_object URL_field.

Definition Config_field (k : string) : option (decoder Config) :=
  if fold_eq k "PrivateKey" then
    Some (into PrivateKey
            (fun v c => mkConfig v (Peers c) (StunTurnURLs c) (SignalAddr c)
                          (WgAddr c) (WgIface c) (IFaceBlackList c))
            dec_string)
  else if fold_eq k "Peers" then
    Some (into Peers
            (fun v c => mkConfig (PrivateKey c) v (StunTurnURLs c) (SignalAddr c)
                          (WgAddr c) (WgIface c) (IFaceBlackList c))
            (dec_slice zero_Peer dec_Peer))
  else if fold_eq k "StunTurnURLs" then
    Some (into StunTurnURLs
            (fun v c => mkConfig (PrivateKey c) (Peers c) v (SignalAddr c)
                          (WgAddr c) (WgIface c) (IFaceBlackList c))
            (dec_slice None (dec_ptr zero_URL dec_URL)))
  else if fold_eq k "SignalAddr" then
    Some (into SignalAddr
            (fun v c => mkConfig (PrivateKey c) (Peers c) (StunTurnURLs c) v
                          (WgAddr c) (WgIface c) (IFaceBlackList c))
            dec_string)
  else if fold_eq k "WgAddr" then
    Some (into WgAddr
            (fun v c => mkConfig (PrivateKey c) (Peers c) (StunTurnURLs c)
                          (SignalAddr c) v (WgIface c) (IFaceBlackList c))
            dec_string)
  else if fold_eq k "WgIface" then
    Some (into WgIface
            (fun v c => mkConfig (PrivateKey c) (Peers c) (StunTurnURLs c)
                          (SignalAddr c) (WgAddr c) v (IFaceBlackList c))
            dec_string)
  else if fold_eq k "IFaceBlackList" then
    Some (into IFaceBlackList
            (fun v c => mkConfig (PrivateKey c) (Peers c) (StunTurnURLs c)
                          (SignalAddr c) (WgAddr c) (WgIface c) v)
            (dec_slice "" dec_string))
  else None.

(** [json.Unmarshal(bs, &cfg)]: one value, then nothing but white space *)
Definition Unmarshal (bs : text) (cfg : Config) : Config + error :=
  match dec_object Config_field cfg bs with
  | Some (cfg', r) =>
      match skip_ws r with
      | [] => inl cfg'
      | _ => inr "invalid character after top-level value"
      end
  | None => inr "json: cannot unmarshal"
  end.

(** What a path names.  For a regular file, [readable] says that this
    process can open the file for reading and read it to its end, and
    [writable] that it can open it for writing, as the permissions of the
    file and the identity of the process have it.  A device takes the
    bytes written to it, or refuses them, and keeps none; to a reader it
    gives bytes of its own, or an error. *)
Inductive Node : Type :=
| Regular (readable writable : bool) (data : text)
| Directory
| Device (accepts : bool) (gives : text + error).

(** The files of the machine by path, the paths at which nothing can be
    created (no directory above them, or one that this process cannot
    write to), the file mode creation mask of the process, and whether the
    process passes every permission check, as one run by root does. *)
Record FileSystem : Type := mkFileSystem {
  nodes : gmap string Node;
  denied : gset string;
  umask : Z;
  privileged : bool
}.

Definition with_nodes (m : gmap string Node) (fs : FileSystem) : FileSystem :=
  mkFileSystem m (denied fs) (umask fs) (privileged fs).

(** The owner's permission bits of a file created with mode 0600: the
    bits 0400 and 0200, unless the mask takes them away. *)
Definition created_readable (fs : FileSystem) : bool :=
  privileged fs || negb (Z.testbit (umask fs) 8).

Definition created_writable (fs : FileSystem) : bool :=
  privileged fs || negb (Z.testbit (umask fs) 7).

(** [os.MkdirAll(dir, 0750)]: nothing to do when [dir] is a directory, an
    error when it is something else or cannot be created.  The
    directories above [dir] that it creates on its way are not recorded. *)
Definition MkdirAll (dir : string) (fs : FileSystem) : FileSystem * option error :=
  match nodes fs !! dir with
  | Some Directory => (fs, None)
  | Some _ => (fs, Some "mkdir: not a directory")
  | None =>
      if bool_decide (dir ∈ denied fs) then (fs, Some "mkdir: permission denied")
      else (with_nodes (<[dir := Directory]> (nodes fs)) fs, None)
  end.

(** [ioutil.WriteFile(path, bs, 0600)]: [os.OpenFile] with
    [O_WRONLY|O_CREATE|O_TRUNC], one [Write], [Close].  A file that exists
    keeps its permissions; a device keeps nothing of what it accepts. *)
Definition WriteFile (path : string) (bs : text) (fs : FileSystem)
    : FileSystem * option error :=
  match nodes fs !! path with
  | None =>
      if bool_decide (path ∈ denied fs) then (fs, Some "open: permission denied")
      else (with_nodes
              (<[path := Regular (created_readable fs) (created_writable fs) bs]>
                 (nodes fs)) fs,
            None)
  | Some (Regular r w _) =>
      if w then (with_nodes (<[path := Regular r w bs]> (nodes fs)) fs, None)
      else (fs, Some "open: permission denied")
  | Some Directory => (fs, Some "open: is a directory")
  | Some (Device accepts _) =>
      if accepts then (fs, None) else (fs, Some "write: no space left on device")
  end.

(** [os.Open(path)] followed by [ioutil.ReadAll] *)
Definition ReadFile (path : string) (fs : FileSystem) : text + error :=
  match nodes fs !! path with
  | None => inr "open: no such file or directory"
  | Some (Regular r _ data) => if r then inl data else inr "open: permission denied"
  | Some Directory => inr "read: is a directory"
  | Some (Device _ gives) => gives
  end.

(** The path names a regular file that this process can read. *)
Definition readable_file (path : string) (fs : FileSystem) : bool :=
  match nodes fs !! path with
  | Some (Regular true _ _) => true
  | _ => false
  end.

Section ConfigFile.

(** [defaultConfigPath] is declared in another file of the package, and
    [filepath.Dir] is the standard library's. *)
Variable defaultConfigPath : string.
Variable filepath_Dir : string -> string.

(** [Write], the method of [Config] *)
Definition Write (cfg : Config) (path : string) (fs : FileSystem)
    : FileSystem * option error :=
  let mk :=
    if String.eqb path defaultConfigPath
    then MkdirAll (filepath_Dir path) fs
    else (fs, None) in
  match mk with
  | (fs1, Some err) => (fs1, Some err)
  | (fs1, None) => WriteFile path (Marshal cfg) fs1
  end.

(** [Read] *)
Definition Read (path : string) (fs : FileSystem) : Config + error :=
  match ReadFile path fs with
  | inr err => inr err
  | inl bs => Unmarshal bs zero_Config
  end.

End ConfigFile.

(** The values that a Go [Config] can hold and that are valid UTF-8 in
    every string. *)
Definition valid_string (s : string) : Prop := utf8_valid (list_ascii_of_string s).

Definition valid_Peer (p : Peer) : Prop :=
  valid_string (WgPubKey p) /\ valid_string (WgAllowedIps p).

Definition valid_URL (u : URL) : Prop :=
  int_range (Scheme u) /\ valid_string (Host u) /\ int_range (Port u) /\
  valid_string (Username u) /\ valid_string (Password u) /\ int_range (Proto u).

Definition valid_slice {A : Type} (P : A -> Prop) (s : option (list A)) : Prop :=
  match s with
  | None => True
  | Some l => Forall P l
  end.

Definition valid_ptr {A : Type} (P : A -> Prop) (p : option A) : Prop :=
  match p with
  | None => True
  | Some x => P x
  end.

Definition valid_Config (cfg : Config) : Prop :=
  valid_string (PrivateKey cfg) /\
  valid_slice valid_Peer (Peers cfg) /\
  valid_slice (valid_ptr valid_URL) (StunTurnURLs cfg) /\
  valid_string (SignalAddr cfg) /\
  valid_string (WgAddr cfg) /\
  valid_string (WgIface cfg) /\
  valid_slice valid_string (IFaceBlackList cfg).

(** A configuration, and one whose private key is not valid UTF-8. *)
Definition example_Config : Config :=
  {| PrivateKey := "AQEBAQEBAQEBAQEBAQEBAQEBAQEBAQEBAQEBAQEBAQE=";
     Peers := Some [mkPeer "AgICAgICAgICAgICAgICAgICAgICAgICAgICAgICAgI=" "10.30.30.2/32"];
     StunTurnURLs := Some [Some (mkURL 1 "stun.wiretrustee.com" 3468 "" "" 1); None];
     SignalAddr := "signal.wiretrustee.com:10000";
     WgAddr := "10.30.30.1/24";
     WgIface := "wt0";
     IFaceBlackList := Some ["docker0"; "lo"] |}.


(** A machine without files, with the usual mask 022; the same machine
    with the device [/dev/null]; and one with a configuration file that the
    process can write and cannot read. *)
Definition empty_fs : FileSystem := mkFileSystem ∅ ∅ 18 false.

Definition null_fs : FileSystem :=
  with_nodes (<["/dev/null" := Device true (inl [])]> ∅) empty_fs.

Definition write_only_fs : FileSystem :=
  with_nodes (<["/etc/wiretrustee/config.json" := Regular false true []]> ∅) empty_fs.

End cmd.

(** ** More of the retry policy and of the engine *)

(** The policy at the [n]-th turn of the loop of [backoff.Retry] as
    [InitializePeer] calls it: [Reset], then one [NextBackOff] for each
    attempt that failed, with the readings of the clock and of the random
    source at each turn. *)
Fixpoint policy_at (clock random : nat -> Z) (n : nat) : ExponentialBackOff :=
  match n with
  | O => Reset backOff
  | S n' => snd (NextBackOff (policy_at clock random n') (clock n') (random n'))
  end.

(** The delay before the attempt that follows the [n]-th failure. *)
Definition delay_at (clock random : nat -> Z) (n : nat) : Z :=
  fst (NextBackOff (policy_at clock random n) (clock n) (random n)).

Section EngineFrames.
Context {WG : WgTypes} {ICE : Ice} {SIG : Signal}.

(** The step of the routing handler, the only goroutine that does not take
    the mutex. *)
Definition is_signal (s : Step) : bool :=
  match s with
  | StepSignal _ => true
  | _ => false
  end.

(** A computation that leaves the engine alone, creates no connection and
    changes no configuration: all it can change is the status of a
    connection, and the trace. *)
Definition status_only {A : Type} (m : M A) : Prop :=
  forall w r w', m w = Some (r, w') ->
    engine w' = engine w /\ map Config (heap w') = map Config (heap w).

(** The events of a trace that were added since it was [old] long. *)
Definition events_since (old : list Event) (t : list Event) : list Event :=
  take (length t - length old) t.

Definition is_close (ev : Event) : bool :=
  match ev with
  | EvClose _ => true
  | _ => false
  end.

(** A turn of the retry loop in which no other goroutine is at work and
    Open fails. *)
Definition quiet_failure (rd : Round) : bool :=
  match during (open_oracle (attempt rd)), before_check (attempt rd),
        sleeping rd, outcome (open_oracle (attempt rd)) with
  | [], [], [], Some _ => true
  | _, _, _, _ => false
  end.

End EngineFrames.

Section MoreExamples.
#[local] Existing Instance wgtypes_model.
#[local] Existing Instance ice_model.
#[local] Existing Instance signal_model.

(** Two more messages from [peerB]: one without body, and an OFFER whose
    payload is not [ufrag:pwd]. *)
Definition no_body_from_B : Message := mkMessage kB kA None.

Definition bad_offer_from_B : Message :=
  mkMessage kB kA (Some (mkBody Body_OFFER (list_byte_of_string "no-colon"))).

(** Turns of the retry loop: an Open that times out and one that succeeds
    with no other goroutine at work, and an Open that times out while
    [peerB] is removed before the check. *)
Definition quiet_timeout : Round :=
  mkRound (mkAttempt (mkOpenOracle [] (Some "timeout")) []) 0 0 [].

Definition quiet_success : Round :=
  mkRound (mkAttempt (mkOpenOracle [] None) []) 0 0 [].

Definition removed_meanwhile : Round :=
  mkRound (mkAttempt (mkOpenOracle [] (Some "timeout"))
             [StepStatus kB; StepRemove peerB; StepStatus kA]) 0 0 [].

(** What four goroutines do one after the other, none of them the
    routing handler. *)
Definition busy_steps : list Step :=
  [register_B; StepOpenBegin 0; StepStatus kB; StepCheck peerB None;
   StepOpenEnd 0 None; StepRemove peerB].

End MoreExamples.

(** ** Starting the engine *)

(** [json.Unmarshal(body, &peer)]: one value, then nothing but white space *)
Definition Unmarshal_Peer (bs : json.text) (peer : Peer) : Peer + error :=
  match cmd.dec_Peer peer bs with
  | Some (peer', r) =>
      match json.skip_ws r with
      | [] => inl peer'
      | _ => inr "invalid character after top-level value"
      end
  | None => inr "json: cannot unmarshal"
  end.

Section StartModel.
Context {WG : WgTypes} {ICE : Ice} {SIG : Signal}.

(** What [Start] does, in the order in which it does it: its calls of the
    iface package, its call of [receiveSignal], and the goroutines that it
    starts, [go e.InitializePeer(wgPort, myKey, peer)] for a peer and the
    one that serves HTTP. *)
Inductive Action : Type :=
| ActCreate (iface address : string)
| ActConfigure (iface key : string)
| ActGetListenPort (iface : string)
| ActReceiveSignal
| ActInitializePeer (wgPort : Z) (myKey : Key) (peer : Peer)
| ActListenAndServe (address : string).



(** The handler of [/peer] that [Start] installs, on a request whose body
    [ioutil.ReadAll] reads as [body]: the goroutine that it starts, if it
    starts one. *)
Definition peer_handler (wgPort : Z) (myKey : Key) (body : json.text + error)
    : option Action :=
  match body with
  | inr _ => None
  | inl bs =>
      match Unmarshal_Peer bs cmd.zero_Peer with
      | inr _ => None
      | inl peer => Some (ActInitializePeer wgPort myKey peer)
      end
  end.


End StartModel.
(** ** The retry policy never gives up *)

Lemma duration_of_nonneg q : (0 <= q)%Q -> 0 <= duration_of q.
Proof.
  intros Hq. unfold duration_of. apply Z.quot_pos; [|lia].
  unfold Qle in Hq. cbn in Hq. lia.
Qed.

Lemma Float64_of_bits_range n :
  (0 <= Float64_of_bits n)%Q /\ (Float64_of_bits n < 1)%Q.
Proof.
  unfold Float64_of_bits, Qle, Qlt. cbn [Qnum Qden].
  pose proof (Z.mod_pos_bound n (2 ^ 53) ltac:(lia)) as Hb.
  change (Z.pos (2 ^ 53)) with (2 ^ 53). lia.
Qed.

Lemma getRandomValueFromInterval_nonneg bits cur :
  0 <= cur ->
  0 <= getRandomValueFromInterval DefaultRandomizationFactor (Float64_of_bits bits) cur.
Proof.
  intros Hcur. unfold getRandomValueFromInterval. apply duration_of_nonneg.
  destruct (Float64_of_bits_range bits) as [Hr0 _].
  set (r := Float64_of_bits bits) in *.
  assert (Hc : (0 <= inject_Z cur)%Q) by (unfold Qle; cbn; lia).
  set (c := inject_Z cur) in *.
  unfold DefaultRandomizationFactor.
  assert (H2 : (0 <= c + (1 # 2) * c - (c - (1 # 2) * c) + 1)%Q) by lra.
  pose proof (Qmult_le_0_compat _ _ Hr0 H2) as H3.
  lra.
Qed.

Lemma policy_inv_Reset : policy_inv (Reset backOff).
Proof.
  unfold policy_inv, Reset, backOff, DefaultInitialInterval, Millisecond, Second.
  cbn [MaxElapsedTime MaxInterval Multiplier RandomizationFactor currentInterval
       InitialInterval].
  repeat split; try reflexivity; lia.
Qed.

Lemma policy_inv_increment b : policy_inv b -> policy_inv (incrementCurrentInterval b).
Proof.
  intros (Hel & Hmax & Hmul & Hrf & Hcur). unfold policy_inv, incrementCurrentInterval.
  cbn [MaxElapsedTime MaxInterval Multiplier RandomizationFactor currentInterval].
  repeat split; try assumption.
  - rewrite Hmax, Hmul. unfold DefaultMultiplier, Second in *.
    destruct (Qle_bool _ _) eqn:Hle; [lia|].
    unfold duration_of. cbn [Qnum Qden Qmult inject_Z].
    apply Z.quot_str_pos; lia.
  - rewrite Hmax, Hmul. unfold DefaultMultiplier, Second in *.
    destruct (Qle_bool _ _) eqn:Hle; [lia|].
    unfold Qle_bool in Hle. cbn in Hle. apply Z.leb_gt in Hle.
    unfold duration_of. cbn [Qnum Qden Qmult inject_Z].
    apply Z.quot_le_upper_bound; lia.
Qed.

Lemma NextBackOff_policy b elapsed bits :
  policy_inv b ->
  fst (NextBackOff b elapsed bits) <> backoff_Stop /\
  policy_inv (snd (NextBackOff b elapsed bits)).
Proof.
  intros Hb. pose proof Hb as (Hel & Hmax & Hmul & Hrf & Hcur).
  unfold NextBackOff. rewrite Hel. cbn [Z.eqb negb andb fst snd]. split.
  - rewrite Hrf.
    pose proof (getRandomValueFromInterval_nonneg bits (currentInterval b) ltac:(lia)).
    unfold backoff_Stop. lia.
  - apply policy_inv_increment. assumption.
Qed.

Section EngineProofs.
Context {WG : WgTypes} {ICE : Ice} {SIG : Signal}.

(** ** Effects of the critical sections *)

Ltac mrun :=
  repeat (cbn [mbind mret M_bind M_ret fst snd negb engine heap trace conns PeerMux
               stunsTurns wgIface wgIP e_iFaceBlackList with_conns with_mux] in *;
          unfold Lock, Unlock, defer, conns_lookup, conns_index, conns_store,
                 conns_delete, log, get_engine, set_conns, set_mux, panic, alloc,
                 NewConnection, mbind, mret, M_bind, M_ret in * ).

Lemma with_mux_free e : PeerMux e = false -> with_mux false (with_mux true e) = e.
Proof. destruct e; cbn; intros ->; reflexivity. Qed.

Lemma with_mux_conns b m e : with_mux b (with_conns m e) = with_conns m (with_mux b e).
Proof. reflexivity. Qed.

Lemma world_eta w : mkWorld (engine w) (heap w) (trace w) = w.
Proof. destruct w; reflexivity. Qed.

Lemma registerConnection_eq wgPort myKey peer w :
  PeerMux (engine w) = false ->
  let e := engine w in
  let remoteKey := fst (ParseKey (WgPubKey peer)) in
  let a := length (heap w) in
  registerConnection wgPort myKey peer w =
    Some (a,
      mkWorld
        (with_conns (<[KeyString remoteKey := Ref a]> (conns e)) e)
        (heap w ++
           [mkConnection
              (mkConnConfig ("127.0.0.1:" +:+ pretty wgPort) (wgIP e) (wgIface e)
                 (WgAllowedIps peer) myKey remoteKey (stunsTurns e)
                 (e_iFaceBlackList e))
              StatusNew])
        (EvUnlock :: EvMapWrite true (KeyString remoteKey) (Ref a)
           :: EvNewConnection a :: EvLock :: trace w)).
Proof.
  intros Hmux. unfold registerConnection. mrun. rewrite Hmux.
  cbn. unfold with_conns. cbn. rewrite Hmux. reflexivity.
Qed.

Lemma RemovePeerConnection_absent peer w :
  PeerMux (engine w) = false ->
  conns (engine w) !! WgPubKey peer = None ->
  RemovePeerConnection peer w =
    Some (None, mkWorld (engine w) (heap w)
                  (EvUnlock :: EvMapRead true (WgPubKey peer) :: EvLock :: trace w)).
Proof.
  intros Hmux Hk. unfold RemovePeerConnection. mrun. rewrite Hmux. cbn.
  rewrite Hk. cbn. rewrite with_mux_free by assumption. reflexivity.
Qed.

Lemma RemovePeerConnection_nil peer w :
  PeerMux (engine w) = false ->
  conns (engine w) !! WgPubKey peer = Some nil_ptr ->
  RemovePeerConnection peer w =
    Some (None, mkWorld (engine w) (heap w)
                  (EvUnlock :: EvMapRead true (WgPubKey peer) :: EvLock :: trace w)).
Proof.
  intros Hmux Hk. unfold RemovePeerConnection. mrun. rewrite Hmux. cbn.
  rewrite Hk. cbn. rewrite with_mux_free by assumption. reflexivity.
Qed.

Lemma RemovePeerConnection_present peer a c w :
  PeerMux (engine w) = false ->
  conns (engine w) !! WgPubKey peer = Some (Ref a) ->
  heap w !! a = Some c ->
  RemovePeerConnection peer w =
    Some (None,
      mkWorld (with_conns (delete (WgPubKey peer) (conns (engine w))) (engine w))
              (<[a := mkConnection (Config c) StatusClosed]> (heap w))
              (EvUnlock :: EvClose a :: EvMapDelete true (WgPubKey peer)
                 :: EvMapRead true (WgPubKey peer) :: EvLock :: trace w)).
Proof.
  intros Hmux Hk Ha. unfold RemovePeerConnection, Close, set_status. mrun.
  rewrite Hmux. cbn. rewrite Hk. cbn. rewrite Ha. cbn.
  rewrite with_mux_conns, with_mux_free by assumption. reflexivity.
Qed.

Lemma GetPeerConnectionStatus_eq peerKey w :
  PeerMux (engine w) = false ->
  GetPeerConnectionStatus peerKey w =
    Some (match conns (engine w) !! peerKey with
          | Some (Ref a) => Ref a
          | _ => nil_ptr
          end,
          mkWorld (engine w) (heap w)
            (EvUnlock :: EvMapRead true peerKey :: EvLock :: trace w)).
Proof.
  intros Hmux. unfold GetPeerConnectionStatus. mrun. rewrite Hmux. cbn.
  destruct (conns (engine w) !! peerKey) as [[|a]|]; cbn;
    rewrite with_mux_free by assumption; reflexivity.
Qed.

Lemma operation_check_eq peer err w :
  PeerMux (engine w) = false ->
  operation_check peer err w =
    Some (match conns (engine w) !! WgPubKey peer with
          | Some _ => err
          | None => None
          end,
          mkWorld (engine w) (heap w)
            (EvUnlock :: EvMapRead true (WgPubKey peer) :: EvLock :: trace w)).
Proof.
  intros Hmux. unfold operation_check. mrun. rewrite Hmux. cbn.
  destruct (conns (engine w) !! WgPubKey peer) as [p|], err as [e|]; cbn;
    rewrite with_mux_free by assumption; reflexivity.
Qed.

Lemma heap_ext_refl h : heap_ext h h.
Proof. intros a c Ha; eauto. Qed.

Lemma heap_ext_trans h1 h2 h3 : heap_ext h1 h2 -> heap_ext h2 h3 -> heap_ext h1 h3.
Proof.
  intros H12 H23 a c Ha.
  destruct (H12 a c Ha) as (c2 & Ha2 & Hc2).
  destruct (H23 a c2 Ha2) as (c3 & Ha3 & Hc3).
  exists c3. split; [assumption | congruence].
Qed.

Lemma heap_ext_status h a c s :
  h !! a = Some c -> heap_ext h (<[a := mkConnection (Config c) s]> h).
Proof.
  intros Ha b cb Hb. destruct (decide (a = b)) as [->|Hne].
  - exists (mkConnection (Config c) s). split.
    + apply list_lookup_insert_eq. eapply lookup_lt_Some; eassumption.
    + cbn. congruence.
  - exists cb. split; [|reflexivity]. rewrite list_lookup_insert_ne; assumption.
Qed.

Lemma heap_ext_app h l : heap_ext h (h ++ l).
Proof.
  intros a c Ha. exists c. split; [|reflexivity]. apply lookup_app_l_Some. assumption.
Qed.

Lemma conn_only_ret {A : Type} (a : A) : conn_only (mret a).
Proof.
  intros w r w' Hrun. mrun. injection Hrun as <- <-. split; [reflexivity | apply heap_ext_refl].
Qed.

Lemma conn_only_bind {A B : Type} (m : M A) (f : A -> M B) :
  conn_only m -> (forall a, conn_only (f a)) -> conn_only (m ≫= f).
Proof.
  intros Hm Hf w r w' Hrun. mrun.
  destruct (m w) as [[a w1]|] eqn:Hmw; [|discriminate].
  destruct (Hm _ _ _ Hmw) as [He1 Hh1].
  destruct (Hf a _ _ _ Hrun) as [He2 Hh2].
  split; [congruence | eapply heap_ext_trans; eassumption].
Qed.

Lemma conn_only_panic {A : Type} : conn_only (panic (A := A)).
Proof. intros w r w' Hrun. discriminate. Qed.

Lemma conn_only_log ev : conn_only (log ev).
Proof.
  intros w r w' Hrun. mrun. injection Hrun as <- <-. split; [reflexivity | apply heap_ext_refl].
Qed.

Lemma conn_only_deref a : conn_only (deref a).
Proof.
  intros w r w' Hrun. unfold deref in Hrun.
  destruct (heap w !! a); [|discriminate].
  injection Hrun as <- <-. split; [reflexivity | apply heap_ext_refl].
Qed.

Lemma conn_only_set_status a s : conn_only (set_status a s).
Proof.
  intros w r w' Hrun. unfold set_status in Hrun.
  destruct (heap w !! a) as [c|] eqn:Ha; [|discriminate].
  injection Hrun as <- <-. split; [reflexivity | apply heap_ext_status; assumption].
Qed.

Lemma conn_only_conns_index k : conn_only (conns_index k).
Proof.
  intros w r w' Hrun. mrun. injection Hrun as <- <-. split; [reflexivity | apply heap_ext_refl].
Qed.

Create HintDb frame.
#[local] Hint Resolve conn_only_ret conn_only_panic conn_only_log conn_only_deref
  conn_only_set_status conn_only_conns_index : frame.

Ltac frame :=
  repeat first
    [ solve [auto with frame]
    | apply conn_only_bind; [|intros ?]
    | match goal with |- conn_only (match ?x with _ => _ end) => destruct x end
    | match goal with |- conn_only (if ?x then _ else _) => destruct x end ].

Lemma conn_only_Close a : conn_only (Close a).
Proof. unfold Close. frame. Qed.

Lemma conn_only_OnOffer a cred : conn_only (OnOffer a cred).
Proof. unfold OnOffer. frame. Qed.

Lemma conn_only_OnAnswer a cred : conn_only (OnAnswer a cred).
Proof. unfold OnAnswer. frame. Qed.

Lemma conn_only_OnRemoteCandidate a cand : conn_only (OnRemoteCandidate a cand).
Proof. unfold OnRemoteCandidate. frame. Qed.

Lemma conn_only_Open_begin a : conn_only (Open_begin a).
Proof. unfold Open_begin. frame. Qed.

Lemma conn_only_Open_end a o : conn_only (Open_end a o).
Proof. unfold Open_end. frame. Qed.

#[local] Hint Resolve conn_only_Close conn_only_OnOffer conn_only_OnAnswer
  conn_only_OnRemoteCandidate conn_only_Open_begin conn_only_Open_end : frame.

Lemma conn_only_dispatch a msg : conn_only (dispatch a msg).
Proof. unfold dispatch. frame. Qed.

#[local] Hint Resolve conn_only_dispatch : frame.

Lemma conn_only_handler msg : conn_only (receiveSignal_handler msg).
Proof. unfold receiveSignal_handler. frame. Qed.

Lemma conns_wf_ext w w' :
  conns_wf w ->
  conns (engine w') = conns (engine w) ->
  heap_ext (heap w) (heap w') ->
  conns_wf w'.
Proof.
  intros Hwf Hc Hh k p Hk. rewrite Hc in Hk.
  destruct (Hwf k p Hk) as (a & c & -> & Ha & Hkey).
  destruct (Hh a c Ha) as (c' & Ha' & Hcfg).
  exists a, c'. repeat split; [assumption | congruence].
Qed.

Lemma conns_wf_delete w w' k :
  conns_wf w ->
  conns (engine w') = delete k (conns (engine w)) ->
  heap_ext (heap w) (heap w') ->
  conns_wf w'.
Proof.
  intros Hwf Hc Hh k' p Hk. rewrite Hc in Hk.
  apply lookup_delete_Some in Hk as [_ Hk].
  destruct (Hwf k' p Hk) as (a & c & -> & Ha & Hkey).
  destruct (Hh a c Ha) as (c' & Ha' & Hcfg).
  exists a, c'. repeat split; [assumption | congruence].
Qed.

Lemma inv_conn_only {A : Type} (m : M A) w r w' :
  conn_only m -> inv w -> m w = Some (r, w') -> inv w'.
Proof.
  intros Hm [Hmux Hwf] Hrun. destruct (Hm _ _ _ Hrun) as [He Hh].
  split; [congruence|]. eapply conns_wf_ext; [eassumption | congruence | assumption].
Qed.

Lemma inv_registerConnection wgPort myKey peer w a w' :
  inv w -> registerConnection wgPort myKey peer w = Some (a, w') -> inv w'.
Proof.
  intros [Hmux Hwf] Hrun. rewrite registerConnection_eq in Hrun by assumption.
  injection Hrun as <- <-. split; [assumption|].
  intros k p Hk. cbn in Hk.
  destruct (decide (KeyString (fst (ParseKey (WgPubKey peer))) = k)) as [<-|Hne].
  - rewrite lookup_insert_eq in Hk. injection Hk as <-.
    eexists _, _. split; [reflexivity|]. split.
    + cbn. apply list_lookup_middle. reflexivity.
    + reflexivity.
  - rewrite lookup_insert_ne in Hk by assumption.
    destruct (Hwf k p Hk) as (a & c & -> & Ha & Hkey).
    exists a, c. repeat split; [|assumption].
    cbn. apply lookup_app_l_Some. assumption.
Qed.

Lemma RemovePeerConnection_dangling peer a w :
  conns (engine w) !! WgPubKey peer = Some (Ref a) ->
  heap w !! a = None ->
  RemovePeerConnection peer w = None.
Proof.
  intros Hk Ha. unfold RemovePeerConnection, Close, set_status. mrun.
  destruct (PeerMux (engine w)); [reflexivity|]. cbn. rewrite Hk. cbn.
  rewrite Ha. reflexivity.
Qed.

Lemma inv_RemovePeerConnection peer w r w' :
  inv w -> RemovePeerConnection peer w = Some (r, w') -> inv w'.
Proof.
  intros [Hmux Hwf] Hrun.
  destruct (conns (engine w) !! WgPubKey peer) as [[|a]|] eqn:Hk.
  - rewrite RemovePeerConnection_nil in Hrun by assumption.
    injection Hrun as <- <-. split; assumption.
  - destruct (heap w !! a) as [c|] eqn:Ha.
    + rewrite (RemovePeerConnection_present _ _ _ _ Hmux Hk Ha) in Hrun.
      injection Hrun as <- <-. split; [assumption|].
      eapply conns_wf_delete; [eassumption | reflexivity |].
      cbn. apply heap_ext_status. assumption.
    + rewrite (RemovePeerConnection_dangling _ _ _ Hk Ha) in Hrun. discriminate.
  - rewrite RemovePeerConnection_absent in Hrun by assumption.
    injection Hrun as <- <-. split; assumption.
Qed.

Lemma run_bind_unit {A : Type} (m : M A) w w' :
  (m;; mret tt) w = Some (tt, w') -> exists r, m w = Some (r, w').
Proof.
  mrun. destruct (m w) as [[r w1]|]; [|discriminate].
  intros Heq. injection Heq as <-. eauto.
Qed.

Lemma inv_run_step s w w' :
  inv w -> run_step s w = Some (tt, w') -> inv w'.
Proof.
  intros Hinv Hrun. destruct s; cbn [run_step] in Hrun.
  - apply run_bind_unit in Hrun as [r Hrun]. eapply inv_registerConnection; eassumption.
  - eapply inv_conn_only; [apply conn_only_Open_begin | eassumption..].
  - apply run_bind_unit in Hrun as [r Hrun].
    eapply inv_conn_only; [apply conn_only_Open_end | eassumption..].
  - apply run_bind_unit in Hrun as [r Hrun]. destruct Hinv as [Hmux Hwf].
    rewrite operation_check_eq in Hrun by assumption.
    injection Hrun as _ <-. split; assumption.
  - apply run_bind_unit in Hrun as [r Hrun]. eapply inv_RemovePeerConnection; eassumption.
  - apply run_bind_unit in Hrun as [r Hrun]. destruct Hinv as [Hmux Hwf].
    rewrite GetPeerConnectionStatus_eq in Hrun by assumption.
    injection Hrun as _ <-. split; assumption.
  - apply run_bind_unit in Hrun as [r Hrun].
    eapply inv_conn_only; [apply conn_only_handler | eassumption..].
Qed.

Lemma run_steps_cons s l w :
  run_steps (s :: l) w =
    match run_step s w with
    | Some (_, w1) => run_steps l w1
    | None => None
    end.
Proof.
  cbn [run_steps]. mrun. destruct (run_step s w) as [[[] w1]|]; reflexivity.
Qed.

Lemma inv_run_steps l w w' :
  inv w -> run_steps l w = Some (tt, w') -> inv w'.
Proof.
  revert w. induction l as [|s l IH]; intros w Hinv Hrun.
  - cbn in Hrun. injection Hrun as <-. assumption.
  - rewrite run_steps_cons in Hrun.
    destruct (run_step s w) as [[[] w1]|] eqn:Hs; [|discriminate].
    eapply IH; [|eassumption]. eapply inv_run_step; eassumption.
Qed.

Lemma reachable_inv w : reachable w -> inv w.
Proof.
  induction 1 as [| w s w' _ IH Hs].
  - split; [reflexivity|]. intros k p Hk. cbn in Hk. rewrite lookup_empty in Hk. discriminate.
  - eapply inv_run_step; eassumption.
Qed.

(** ** The routing handler *)

Lemma handler_found msg a c w :
  conns (engine w) !! MsgKey msg = Some (Ref a) ->
  heap w !! a = Some c ->
  receiveSignal_handler msg w =
    (if key_mismatch c msg
     then mret (Some ("unknown peer " +:+ MsgKey msg))
     else dispatch a msg)
      (mkWorld (engine w) (heap w)
         (EvMapRead (PeerMux (engine w)) (MsgKey msg) :: trace w)).
Proof.
  intros Hk Ha. unfold receiveSignal_handler, deref. mrun. rewrite Hk. cbn.
  rewrite Ha. reflexivity.
Qed.

Lemma key_mismatch_false c msg :
  KeyString (RemoteWgKey (Config c)) = MsgKey msg -> key_mismatch c msg = false.
Proof.
  intros Hkey. unfold key_mismatch. rewrite Hkey, String.eqb_refl. reflexivity.
Qed.

(** C9: in every reachable state each entry of the connection map, stored
    under key [k], points to a Connection whose configured remote key
    prints as [k]; so for a message whose sender key finds a Connection the
    test [conn.Config.RemoteWgKey.String() != msg.Key] is false and the
    handler is the lookup followed by the dispatch: its "unknown peer"
    branch is never taken. *)
Theorem map_entries_keyed_by_remote_key (w : World) :
  reachable w ->
  (forall k p, conns (engine w) !! k = Some p ->
     exists a c, p = Ref a /\ heap w !! a = Some c /\
                 KeyString (RemoteWgKey (Config c)) = k) /\
  (forall msg a c,
     conns (engine w) !! MsgKey msg = Some (Ref a) ->
     heap w !! a = Some c ->
     key_mismatch c msg = false) /\
  (forall msg a,
     conns (engine w) !! MsgKey msg = Some (Ref a) ->
     receiveSignal_handler msg w =
       (_ ← conns_index (MsgKey msg); dispatch a msg) w).
Proof.
  intros Hreach. destruct (reachable_inv _ Hreach) as [_ Hwf].
  split; [exact Hwf|]. split.
  - intros msg a c Hk Ha.
    destruct (Hwf _ _ Hk) as (a' & c' & Heq & Ha' & Hkey).
    injection Heq as <-. rewrite Ha in Ha'. injection Ha' as <-.
    apply key_mismatch_false. assumption.
  - intros msg a Hk.
    destruct (Hwf _ _ Hk) as (a' & c' & Heq & Ha' & Hkey).
    injection Heq as <-.
    rewrite (handler_found _ _ _ _ Hk Ha'), key_mismatch_false by assumption.
    mrun. reflexivity.
Qed.

Lemma handler_unknown_sender (w : World) (msg : Message) :
  conns (engine w) !! MsgKey msg = None ->
  receiveSignal_handler msg w =
    Some (Some ("wrongly addressed message " +:+ MsgKey msg),
          mkWorld (engine w) (heap w)
            (EvMapRead (PeerMux (engine w)) (MsgKey msg) :: trace w)).
Proof.
  intros Hk. unfold receiveSignal_handler. mrun. rewrite Hk. reflexivity.
Qed.

(** C7: a message whose sender key has no entry in the connection map gets
    the addressing error; the engine (so the map) and the connections are
    exactly as before, no Connection has been created, and the only effect
    is the map read.  This holds for every body type, OFFER included. *)
Theorem unknown_sender_is_dropped (w : World) (msg : Message) :
  conns (engine w) !! MsgKey msg = None ->
  receiveSignal_handler msg w =
    Some (Some ("wrongly addressed message " +:+ MsgKey msg),
          mkWorld (engine w) (heap w)
            (EvMapRead (PeerMux (engine w)) (MsgKey msg) :: trace w)).
Proof. apply handler_unknown_sender. Qed.

Lemma handler_valid_candidate msg body cand a c w :
  conns (engine w) !! MsgKey msg = Some (Ref a) ->
  heap w !! a = Some c ->
  KeyString (RemoteWgKey (Config c)) = MsgKey msg ->
  MsgBody msg = Some body ->
  BodyType body = Body_CANDIDATE ->
  UnmarshalCandidate (Payload body) = inl cand ->
  exists r w',
    receiveSignal_handler msg w = Some (r, w') /\
    trace w' = EvOnRemoteCandidate a cand
                 :: EvMapRead (PeerMux (engine w)) (MsgKey msg) :: trace w.
Proof.
  intros Hk Ha Hkey Hbody Htype Hgood.
  rewrite (handler_found _ _ _ _ Hk Ha), key_mismatch_false by assumption.
  unfold dispatch. rewrite Hbody, Htype, Hgood.
  unfold OnRemoteCandidate, deref. mrun. rewrite Ha.
  destruct (ConnStatus c); eexists _, _; split; reflexivity.
Qed.

Lemma handler_bad_candidate msg body err w :
  conns_wf w ->
  MsgBody msg = Some body ->
  BodyType body = Body_CANDIDATE ->
  UnmarshalCandidate (Payload body) = inr err ->
  exists e,
    receiveSignal_handler msg w =
      Some (Some e, mkWorld (engine w) (heap w)
                      (EvMapRead (PeerMux (engine w)) (MsgKey msg) :: trace w)).
Proof.
  intros Hwf Hbody Htype Hbad.
  destruct (conns (engine w) !! MsgKey msg) as [p|] eqn:Hk.
  - destruct (Hwf _ _ Hk) as (a & c & -> & Ha & Hkey).
    rewrite (handler_found _ _ _ _ Hk Ha), key_mismatch_false by assumption.
    unfold dispatch. rewrite Hbody, Htype, Hbad. eexists. reflexivity.
  - rewrite handler_unknown_sender by assumption. eexists. reflexivity.
Qed.

Lemma Receive_two handler msg1 msg2 w r1 w1 r2 w2 :
  handler msg1 w = Some (r1, w1) ->
  handler msg2 w1 = Some (r2, w2) ->
  Receive handler [msg1; msg2] w = Some (tt, w2).
Proof.
  intros H1 H2. cbn [Receive]. mrun. rewrite H1, H2. reflexivity.
Qed.

(** C8: a CANDIDATE message whose payload does not deserialize makes the
    handler return an error; OnRemoteCandidate is not called (the trace
    gains the map read only) and the engine and the connections are as
    before.  A valid CANDIDATE message that follows it for the same sender
    is dispatched to OnRemoteCandidate of the Connection stored under that
    sender key. *)
Theorem unparseable_candidate_is_dropped (w : World) (msg : Message)
    (body : Body) (err : error) :
  reachable w ->
  MsgBody msg = Some body ->
  BodyType body = Body_CANDIDATE ->
  UnmarshalCandidate (Payload body) = inr err ->
  exists e w',
    receiveSignal_handler msg w = Some (Some e, w') /\
    engine w' = engine w /\ heap w' = heap w /\
    trace w' = EvMapRead (PeerMux (engine w)) (MsgKey msg) :: trace w /\
    forall msg2 body2 cand a,
      MsgKey msg2 = MsgKey msg ->
      MsgBody msg2 = Some body2 ->
      BodyType body2 = Body_CANDIDATE ->
      UnmarshalCandidate (Payload body2) = inl cand ->
      conns (engine w) !! MsgKey msg = Some (Ref a) ->
      exists r2 w2,
        receiveSignal_handler msg2 w' = Some (r2, w2) /\
        receiveSignal [msg; msg2] w = Some (tt, w2) /\
        trace w2 = EvOnRemoteCandidate a cand
                     :: EvMapRead (PeerMux (engine w)) (MsgKey msg2) :: trace w'.
Proof.
  intros Hreach Hbody Htype Hbad.
  destruct (reachable_inv _ Hreach) as [_ Hwf].
  destruct (handler_bad_candidate _ _ _ w Hwf Hbody Htype Hbad) as [e Hrun].
  exists e. eexists. split; [exact Hrun|]. repeat split.
  intros msg2 body2 cand a Hkey2 Hbody2 Htype2 Hgood Hk.
  destruct (Hwf _ _ Hk) as (a' & c & Heq & Ha & Hkey). injection Heq as <-.
  rewrite <- Hkey2 in Hk, Hkey.
  edestruct (handler_valid_candidate msg2 body2 cand a c
               (mkWorld (engine w) (heap w)
                  (EvMapRead (PeerMux (engine w)) (MsgKey msg) :: trace w)))
    as (r2 & w2 & Hrun2 & Htr2); try eassumption.
  exists r2, w2. split; [exact Hrun2|]. split; [|exact Htr2].
  unfold receiveSignal. eapply Receive_two; eassumption.
Qed.

(** ** Removing a peer *)

(** X16: in a reachable state RemovePeerConnection takes the mutex first
    and releases it last, and looks the map up under the text
    [peer.WgPubKey].  If the map has an entry under that text, the entry is
    deleted and the Connection it pointed to is closed, with both effects
    inside the critical section.  If it has none, the call returns nil and
    leaves the engine and the connections as they were.  After any call the
    map has no entry under that text, and a further call is a no-op. *)
Theorem RemovePeerConnection_deletes_and_closes (w : World) (peer : Peer) :
  reachable w ->
  let k := WgPubKey peer in
  (forall p, conns (engine w) !! k = Some p ->
     exists a c,
       p = Ref a /\ heap w !! a = Some c /\
       RemovePeerConnection peer w =
         Some (None,
           mkWorld (with_conns (delete k (conns (engine w))) (engine w))
                   (<[a := mkConnection (Config c) StatusClosed]> (heap w))
                   (EvUnlock :: EvClose a :: EvMapDelete true k
                      :: EvMapRead true k :: EvLock :: trace w))) /\
  (conns (engine w) !! k = None ->
     RemovePeerConnection peer w =
       Some (None, mkWorld (engine w) (heap w)
                     (EvUnlock :: EvMapRead true k :: EvLock :: trace w))) /\
  (forall r w', RemovePeerConnection peer w = Some (r, w') ->
     conns (engine w') !! k = None /\
     exists w'', RemovePeerConnection peer w' = Some (None, w'') /\
                 engine w'' = engine w' /\ heap w'' = heap w').
Proof.
  intros Hreach k. destruct (reachable_inv _ Hreach) as [Hmux Hwf].
  split; [|split].
  - intros p Hk. destruct (Hwf _ _ Hk) as (a & c & -> & Ha & _).
    exists a, c. split; [reflexivity|]. split; [assumption|].
    apply RemovePeerConnection_present; assumption.
  - intros Hk. apply RemovePeerConnection_absent; assumption.
  - intros r w' Hrun.
    assert (Hinv' : inv w') by (eapply inv_RemovePeerConnection; [split|]; eassumption).
    assert (Hk' : conns (engine w') !! k = None).
    { destruct (conns (engine w) !! k) as [p|] eqn:Hk.
      - destruct (Hwf _ _ Hk) as (a & c & -> & Ha & _).
        rewrite (RemovePeerConnection_present _ _ _ _ Hmux Hk Ha) in Hrun.
        injection Hrun as _ <-. cbn. apply lookup_delete_eq.
      - rewrite RemovePeerConnection_absent in Hrun by assumption.
        injection Hrun as _ <-. assumption. }
    split; [assumption|]. destruct Hinv' as [Hmux' _].
    eexists. split; [apply RemovePeerConnection_absent; assumption|].
    split; reflexivity.
Qed.

(** ** Interleaved steps *)

Lemma run_step_heap_ext s w w' :
  inv w -> run_step s w = Some (tt, w') -> heap_ext (heap w) (heap w').
Proof.
  intros [Hmux Hwf] Hrun. destruct s; cbn [run_step] in Hrun.
  - apply run_bind_unit in Hrun as [r Hrun].
    rewrite registerConnection_eq in Hrun by assumption.
    injection Hrun as _ <-. apply heap_ext_app.
  - apply (conn_only_Open_begin _ _ _ _ Hrun).
  - apply run_bind_unit in Hrun as [r Hrun]. apply (conn_only_Open_end _ _ _ _ _ Hrun).
  - apply run_bind_unit in Hrun as [r Hrun].
    rewrite operation_check_eq in Hrun by assumption.
    injection Hrun as _ <-. apply heap_ext_refl.
  - apply run_bind_unit in Hrun as [r Hrun].
    destruct (conns (engine w) !! WgPubKey peer) as [[|a]|] eqn:Hk.
    + rewrite RemovePeerConnection_nil in Hrun by assumption.
      injection Hrun as _ <-. apply heap_ext_refl.
    + destruct (heap w !! a) as [c|] eqn:Ha.
      * rewrite (RemovePeerConnection_present _ _ _ _ Hmux Hk Ha) in Hrun.
        injection Hrun as _ <-. apply heap_ext_status. assumption.
      * rewrite (RemovePeerConnection_dangling _ _ _ Hk Ha) in Hrun. discriminate.
    + rewrite RemovePeerConnection_absent in Hrun by assumption.
      injection Hrun as _ <-. apply heap_ext_refl.
  - apply run_bind_unit in Hrun as [r Hrun].
    rewrite GetPeerConnectionStatus_eq in Hrun by assumption.
    injection Hrun as _ <-. apply heap_ext_refl.
  - apply run_bind_unit in Hrun as [r Hrun]. apply (conn_only_handler _ _ _ _ Hrun).
Qed.

Lemma run_steps_heap_ext l w w' :
  inv w -> run_steps l w = Some (tt, w') -> heap_ext (heap w) (heap w').
Proof.
  revert w. induction l as [|s l IH]; intros w Hinv Hrun.
  - cbn in Hrun. injection Hrun as <-. apply heap_ext_refl.
  - rewrite run_steps_cons in Hrun.
    destruct (run_step s w) as [[[] w1]|] eqn:Hs; [|discriminate].
    eapply heap_ext_trans.
    + eapply run_step_heap_ext; eassumption.
    + eapply IH; [|eassumption]. eapply inv_run_step; eassumption.
Qed.

(** A step that does not write the key [k] leaves the entry of [k] alone. *)
Lemma run_step_conns_other s k w w' :
  inv w -> run_step s w = Some (tt, w') -> step_key s <> Some k ->
  conns (engine w') !! k = conns (engine w) !! k.
Proof.
  intros [Hmux Hwf] Hrun Hkey. destruct s; cbn [run_step step_key] in Hrun, Hkey.
  - apply run_bind_unit in Hrun as [r Hrun].
    rewrite registerConnection_eq in Hrun by assumption.
    injection Hrun as _ <-. cbn. apply lookup_insert_ne. congruence.
  - destruct (conn_only_Open_begin _ _ _ _ Hrun) as [-> _]. reflexivity.
  - apply run_bind_unit in Hrun as [r Hrun].
    destruct (conn_only_Open_end _ _ _ _ _ Hrun) as [-> _]. reflexivity.
  - apply run_bind_unit in Hrun as [r Hrun].
    rewrite operation_check_eq in Hrun by assumption.
    injection Hrun as _ <-. reflexivity.
  - apply run_bind_unit in Hrun as [r Hrun].
    destruct (conns (engine w) !! WgPubKey peer) as [[|a]|] eqn:Hk.
    + rewrite RemovePeerConnection_nil in Hrun by assumption.
      injection Hrun as _ <-. reflexivity.
    + destruct (heap w !! a) as [c|] eqn:Ha.
      * rewrite (RemovePeerConnection_present _ _ _ _ Hmux Hk Ha) in Hrun.
        injection Hrun as _ <-. cbn. apply lookup_delete_ne. congruence.
      * rewrite (RemovePeerConnection_dangling _ _ _ Hk Ha) in Hrun. discriminate.
    + rewrite RemovePeerConnection_absent in Hrun by assumption.
      injection Hrun as _ <-. reflexivity.
  - apply run_bind_unit in Hrun as [r Hrun].
    rewrite GetPeerConnectionStatus_eq in Hrun by assumption.
    injection Hrun as _ <-. reflexivity.
  - apply run_bind_unit in Hrun as [r Hrun].
    destruct (conn_only_handler _ _ _ _ Hrun) as [-> _]. reflexivity.
Qed.

Lemma run_steps_conns_other l k w w' :
  inv w -> run_steps l w = Some (tt, w') ->
  Forall (fun s => step_key s <> Some k) l ->
  conns (engine w') !! k = conns (engine w) !! k.
Proof.
  revert w. induction l as [|s l IH]; intros w Hinv Hrun Hall.
  - cbn in Hrun. injection Hrun as <-. reflexivity.
  - rewrite run_steps_cons in Hrun.
    destruct (run_step s w) as [[[] w1]|] eqn:Hs; [|discriminate].
    inversion Hall as [|? ? Hs_key Hl]; subst.
    rewrite (IH w1); [| eapply inv_run_step; eassumption | assumption | assumption].
    eapply run_step_conns_other; eassumption.
Qed.

(** ** Opening a connection *)

Lemma blocked_in_Open_eq wgPort myKey peer w :
  PeerMux (engine w) = false ->
  let e := engine w in
  let remoteKey := fst (ParseKey (WgPubKey peer)) in
  let a := length (heap w) in
  blocked_in_Open wgPort myKey peer w =
    Some (a,
      mkWorld
        (with_conns (<[KeyString remoteKey := Ref a]> (conns e)) e)
        (heap w ++
           [mkConnection
              (mkConnConfig ("127.0.0.1:" +:+ pretty wgPort) (wgIP e) (wgIface e)
                 (WgAllowedIps peer) myKey remoteKey (stunsTurns e)
                 (e_iFaceBlackList e))
              StatusNegotiating])
        (EvOpen a :: EvUnlock :: EvMapWrite true (KeyString remoteKey) (Ref a)
           :: EvNewConnection a :: EvLock :: trace w)).
Proof.
  intros Hmux e remoteKey a. unfold blocked_in_Open.
  unfold mbind at 1, M_bind at 1. rewrite registerConnection_eq by assumption.
  unfold Open_begin, deref, set_status. mrun.
  rewrite list_lookup_middle by reflexivity. cbn.
  rewrite list_lookup_middle by reflexivity. cbn.
  rewrite insert_app_r_alt by lia. rewrite Nat.sub_diag. reflexivity.
Qed.

Lemma openPeerConnection_unfold wgPort myKey peer o w :
  openPeerConnection wgPort myKey peer o w =
    match blocked_in_Open wgPort myKey peer w with
    | Some (a, w2) =>
        match run_steps (during o) w2 with
        | Some (_, w3) =>
            match Open_end a (outcome o) w3 with
            | Some (Some err, w4) => Some ((nil_ptr, Some err), w4)
            | Some (None, w4) => Some ((Ref a, None), w4)
            | None => None
            end
        | None => None
        end
    | None => None
    end.
Proof.
  unfold openPeerConnection, blocked_in_Open, Open. mrun.
  destruct (registerConnection wgPort myKey peer w) as [[a w1]|]; [|reflexivity].
  destruct (Open_begin a w1) as [[[] w2]|]; [|reflexivity].
  destruct (run_steps (during o) w2) as [[[] w3]|]; [|reflexivity].
  destruct (Open_end a (outcome o) w3) as [[[err|] w4]|]; reflexivity.
Qed.

Lemma Open_end_eq a c o w :
  heap w !! a = Some c ->
  Open_end a o w =
    match ConnStatus c with
    | StatusClosed => Some (Some "connection has been closed", w)
    | _ =>
        match o with
        | None =>
            Some (None, mkWorld (engine w)
                          (<[a := mkConnection (Config c) StatusConnected]> (heap w))
                          (trace w))
        | Some err =>
            Some (Some err, mkWorld (engine w)
                              (<[a := mkConnection (Config c) StatusFailed]> (heap w))
                              (trace w))
        end
    end.
Proof.
  intros Ha. unfold Open_end, deref, set_status. mrun. rewrite Ha.
  destruct (ConnStatus c), o; cbn; rewrite ?Ha; reflexivity.
Qed.

Lemma inv_blocked_in_Open wgPort myKey peer w a w2 :
  inv w -> blocked_in_Open wgPort myKey peer w = Some (a, w2) ->
  inv w2 /\ a = length (heap w) /\ is_Some (heap w2 !! a) /\
  conns (engine w2) = <[KeyString (fst (ParseKey (WgPubKey peer))) := Ref a]> (conns (engine w)).
Proof.
  intros Hinv Hrun. pose proof Hinv as [Hmux Hwf].
  assert (Hinv2 : inv w2).
  { unfold blocked_in_Open in Hrun. mrun.
    destruct (registerConnection wgPort myKey peer w) as [[a1 w1]|] eqn:Hreg; [|discriminate].
    destruct (Open_begin a1 w1) as [[[] w2']|] eqn:Hbeg; [|discriminate].
    injection Hrun as <- <-.
    eapply inv_conn_only; [apply conn_only_Open_begin | | eassumption].
    eapply inv_registerConnection; eassumption. }
  rewrite blocked_in_Open_eq in Hrun by assumption.
  injection Hrun as <- <-. split; [assumption|]. split; [reflexivity|]. split; [|reflexivity].
  cbn. rewrite list_lookup_middle by reflexivity. eauto.
Qed.

Lemma inv_openPeerConnection wgPort myKey peer o w r w' :
  inv w -> openPeerConnection wgPort myKey peer o w = Some (r, w') -> inv w'.
Proof.
  intros Hinv Hrun. rewrite openPeerConnection_unfold in Hrun.
  destruct (blocked_in_Open wgPort myKey peer w) as [[a w2]|] eqn:Hb; [|discriminate].
  destruct (inv_blocked_in_Open _ _ _ _ _ _ Hinv Hb) as (Hinv2 & _).
  destruct (run_steps (during o) w2) as [[[] w3]|] eqn:Hs; [|discriminate].
  pose proof (inv_run_steps _ _ _ Hinv2 Hs) as Hinv3.
  destruct (Open_end a (outcome o) w3) as [[err w4]|] eqn:He; [|discriminate].
  assert (Hinv4 : inv w4) by (eapply inv_conn_only; [apply conn_only_Open_end | |]; eassumption).
  destruct err; injection Hrun as _ <-; assumption.
Qed.

(** C4, as amended: when the blocking Open fails, openPeerConnection
    returns [nil] and an error, and between storing the entry and returning
    it does not touch the map (the map at the return is the map the other
    goroutines left).  The entry it stored is still there at the return
    unless, meanwhile, another goroutine wrote the same key: a
    RemovePeerConnection of that key, or an openPeerConnection of the same
    peer, which replaces the entry. *)
Theorem openPeerConnection_failure_keeps_entry (w : World) (wgPort : Z)
    (myKey : Key) (peer : Peer) (o : OpenOracle) (err : error)
    (a : nat) (w2 w3 : World) :
  reachable w ->
  outcome o = Some err ->
  blocked_in_Open wgPort myKey peer w = Some (a, w2) ->
  run_steps (during o) w2 = Some (tt, w3) ->
  let k := KeyString (fst (ParseKey (WgPubKey peer))) in
  exists err' w4,
    openPeerConnection wgPort myKey peer o w = Some ((nil_ptr, Some err'), w4) /\
    conns (engine w2) !! k = Some (Ref a) /\
    conns (engine w4) = conns (engine w3) /\
    (Forall (fun s => step_key s <> Some k) (during o) ->
     conns (engine w4) !! k = Some (Ref a)).
Proof.
  intros Hreach Hout Hb Hs k. pose proof (reachable_inv _ Hreach) as Hinv.
  destruct (inv_blocked_in_Open _ _ _ _ _ _ Hinv Hb) as (Hinv2 & Ha & [c2 Hc2] & Hconns2).
  destruct (run_steps_heap_ext _ _ _ Hinv2 Hs _ _ Hc2) as (c3 & Hc3 & _).
  assert (Hstored : conns (engine w2) !! k = Some (Ref a)).
  { rewrite Hconns2. apply lookup_insert_eq. }
  assert (Hend : exists err' w4,
            Open_end a (outcome o) w3 = Some (Some err', w4) /\ engine w4 = engine w3).
  { rewrite (Open_end_eq _ _ _ _ Hc3), Hout.
    destruct (ConnStatus c3); eexists _, _; split; reflexivity. }
  destruct Hend as (err' & w4 & Hend & He4).
  exists err', w4. split.
  { rewrite openPeerConnection_unfold, Hb, Hs, Hend. reflexivity. }
  split; [assumption|]. split; [congruence|].
  intros Hall. rewrite He4, <- Hstored.
  eapply run_steps_conns_other; eassumption.
Qed.

(** C1, as amended: the map holds at most one entry per key, and when
    openPeerConnection runs for a peer whose key already has an entry, the
    new Connection takes the place of the old one, with the mutex held: the
    set of keys is unchanged and the entry is the new, different Connection.
    The earlier Connection is not closed: with no other goroutine at work,
    every connection that existed before the call is exactly as it was when
    the call returns; it is only no longer in the map. *)
Theorem openPeerConnection_replaces_entry (w : World) (wgPort : Z)
    (myKey : Key) (peer : Peer) (o : OpenOracle) (old : ptr) :
  reachable w ->
  let k := KeyString (fst (ParseKey (WgPubKey peer))) in
  conns (engine w) !! k = Some old ->
  during o = [] ->
  exists a w1 r w',
    registerConnection wgPort myKey peer w = Some (a, w1) /\
    conns (engine w1) = <[k := Ref a]> (conns (engine w)) /\
    dom (conns (engine w1)) = dom (conns (engine w)) /\
    old <> Ref a /\
    trace w1 = EvUnlock :: EvMapWrite true k (Ref a) :: EvNewConnection a
                 :: EvLock :: trace w /\
    openPeerConnection wgPort myKey peer o w = Some (r, w') /\
    conns (engine w') = conns (engine w1) /\
    (forall b c, heap w !! b = Some c -> heap w' !! b = Some c) /\
    Forall (fun ev => forall b, ev = EvClose b -> False)
           (take (length (trace w') - length (trace w)) (trace w')).
Proof.
  intros Hreach k Hold Hduring. destruct (reachable_inv _ Hreach) as [Hmux Hwf].
  destruct (Hwf _ _ Hold) as (a0 & c0 & -> & Ha0 & _).
  pose proof (lookup_lt_Some _ _ _ Ha0) as Hlt.
  exists (length (heap w)).
  eexists. 
  assert (Hopen : exists r w',
    openPeerConnection wgPort myKey peer o w = Some (r, w') /\
    engine w' = with_conns (<[k := Ref (length (heap w))]> (conns (engine w))) (engine w) /\
    (forall b c, heap w !! b = Some c -> heap w' !! b = Some c) /\
    trace w' = EvOpen (length (heap w)) :: EvUnlock
                 :: EvMapWrite true k (Ref (length (heap w)))
                 :: EvNewConnection (length (heap w)) :: EvLock :: trace w).
  { rewrite openPeerConnection_unfold, blocked_in_Open_eq, Hduring by assumption.
    cbn [run_steps mret M_ret].
    erewrite Open_end_eq by (cbn; apply list_lookup_middle; reflexivity).
    cbn [ConnStatus Config].
    destruct (outcome o); eexists _, _; (split; [reflexivity|]);
      (split; [reflexivity|]); (split; [|reflexivity]);
      intros b c Hb; cbn;
      pose proof (lookup_lt_Some _ _ _ Hb);
      (rewrite list_lookup_insert_ne by lia);
      apply lookup_app_l_Some; assumption. }
  destruct Hopen as (r & w' & Hrun & He & Hheap & Htr).
  exists r, w'. split; [apply registerConnection_eq; assumption|].
  split; [reflexivity|]. split.
  { cbn. apply dom_insert_lookup_L. eauto. }
  split; [intros Heq; injection Heq as ->; lia|].
  split; [reflexivity|]. split; [assumption|].
  split; [rewrite He; reflexivity|]. split; [assumption|].
  rewrite Htr. cbn [length].
  replace (S (S (S (S (S (length (trace w))))) ) - length (trace w))%nat with 5%nat by lia.
  cbn [take]. repeat constructor; intros b Hev; discriminate.
Qed.

(** ** The retry loop *)

Lemma operation_unfold wgPort myKey peer att w :
  operation wgPort myKey peer att w =
    match openPeerConnection wgPort myKey peer (open_oracle att) w with
    | Some (r, w1) =>
        match run_steps (before_check att) w1 with
        | Some (_, w2) => operation_check peer (snd r) w2
        | None => None
        end
    | None => None
    end.
Proof.
  unfold operation. mrun.
  destruct (openPeerConnection _ _ _ _ w) as [[r w1]|]; [|reflexivity].
  destruct (run_steps _ w1) as [[[] w2]|]; reflexivity.
Qed.

Lemma RetryLoop_cons op b rd rounds w :
  RetryLoop op b (rd :: rounds) w =
    match op (attempt rd) w with
    | Some (None, w3) => Some (Some None, w3)
    | Some (Some e, w3) =>
        if fst (NextBackOff b (elapsed rd) (random_bits rd)) =? backoff_Stop
        then Some (Some (Some e), w3)
        else (run_steps (sleeping rd);;
              RetryLoop op (snd (NextBackOff b (elapsed rd) (random_bits rd))) rounds) w3
    | None => None
    end.
Proof.
  cbn [RetryLoop]. mrun.
  destruct (op (attempt rd) w) as [[[e|] w3]|]; try reflexivity.
  destruct (_ =? _); reflexivity.
Qed.

(** X17: the closure [operation] after one attempt.  [w2] is the world in
    which it takes the mutex for its check; the check reads the map under
    the text [peer.WgPubKey] with the mutex held.  If the map has no entry
    under that text, [operation] returns nil and [Retry] returns nil,
    whatever the attempt gave.  If the attempt failed and there is an entry
    under that text, [operation] returns the error of the attempt and the
    loop goes on to its next turn after the sleep.  If the attempt
    succeeded and there is an entry, [operation] returns nil and [Retry]
    returns nil. *)
Theorem operation_result_decides_retry (w : World) (wgPort : Z) (myKey : Key)
    (peer : Peer) (b : ExponentialBackOff) (rd : Round) (rounds : list Round)
    (r : ptr * option error) (w1 w2 : World) :
  reachable w ->
  policy_inv b ->
  openPeerConnection wgPort myKey peer (open_oracle (attempt rd)) w = Some (r, w1) ->
  run_steps (before_check (attempt rd)) w1 = Some (tt, w2) ->
  let op := operation wgPort myKey peer in
  let w3 := mkWorld (engine w2) (heap w2)
              (EvUnlock :: EvMapRead true (WgPubKey peer) :: EvLock :: trace w2) in
  (conns (engine w2) !! WgPubKey peer = None ->
     op (attempt rd) w = Some (None, w3) /\
     RetryLoop op b (rd :: rounds) w = Some (Some None, w3)) /\
  (forall p err,
     conns (engine w2) !! WgPubKey peer = Some p -> snd r = Some err ->
     op (attempt rd) w = Some (Some err, w3) /\
     RetryLoop op b (rd :: rounds) w =
       (run_steps (sleeping rd);;
        RetryLoop op (snd (NextBackOff b (elapsed rd) (random_bits rd))) rounds) w3) /\
  (forall p,
     conns (engine w2) !! WgPubKey peer = Some p -> snd r = None ->
     op (attempt rd) w = Some (None, w3) /\
     RetryLoop op b (rd :: rounds) w = Some (Some None, w3)).
Proof.
  intros Hreach Hpol Hopen Hsteps op w3.
  pose proof (reachable_inv _ Hreach) as Hinv.
  pose proof (inv_openPeerConnection _ _ _ _ _ _ _ Hinv Hopen) as Hinv1.
  destruct (inv_run_steps _ _ _ Hinv1 Hsteps) as [Hmux2 _].
  assert (Hop : op (attempt rd) w =
                Some (match conns (engine w2) !! WgPubKey peer with
                      | Some _ => snd r
                      | None => None
                      end, w3)).
  { unfold op. rewrite operation_unfold, Hopen, Hsteps.
    apply operation_check_eq. assumption. }
  destruct (NextBackOff_policy b (elapsed rd) (random_bits rd) Hpol) as [Hnext _].
  apply Z.eqb_neq in Hnext.
  split; [|split].
  - intros Hk. rewrite RetryLoop_cons, Hop, Hk. split; reflexivity.
  - intros p err Hk Herr. rewrite RetryLoop_cons, Hop, Hk, Herr, Hnext.
    split; reflexivity.
  - intros p Hk Herr. rewrite RetryLoop_cons, Hop, Hk, Herr. split; reflexivity.
Qed.

(** With the policy of [InitializePeer] the loop never returns an error:
    it returns when [operation] returns nil, and not before. *)
Lemma RetryLoop_never_fails op b rounds w e w' :
  policy_inv b -> RetryLoop op b rounds w <> Some (Some (Some e), w').
Proof.
  revert b w. induction rounds as [|rd rounds IH]; intros b w Hpol Hrun.
  - cbn in Hrun. discriminate.
  - rewrite RetryLoop_cons in Hrun.
    destruct (NextBackOff_policy b (elapsed rd) (random_bits rd) Hpol) as [Hnext Hpol'].
    apply Z.eqb_neq in Hnext. rewrite Hnext in Hrun.
    destruct (op (attempt rd) w) as [[[err|] w3]|]; try discriminate.
    mrun. destruct (run_steps (sleeping rd) w3) as [[[] w4]|]; [|discriminate].
    eapply IH; eassumption.
Qed.

Lemma RetryLoop_goes_on op b rd rounds w err w3 :
  policy_inv b ->
  op (attempt rd) w = Some (Some err, w3) ->
  RetryLoop op b (rd :: rounds) w =
    (run_steps (sleeping rd);;
     RetryLoop op (snd (NextBackOff b (elapsed rd) (random_bits rd))) rounds) w3 /\
  policy_inv (snd (NextBackOff b (elapsed rd) (random_bits rd))) /\
  currentInterval (snd (NextBackOff b (elapsed rd) (random_bits rd))) <= 5 * Second.
Proof.
  intros Hpol Hop.
  destruct (NextBackOff_policy b (elapsed rd) (random_bits rd) Hpol) as [Hnext Hpol'].
  apply Z.eqb_neq in Hnext. rewrite RetryLoop_cons, Hop, Hnext.
  split; [reflexivity|]. split; [assumption|]. apply Hpol'.
Qed.

(** The key that [openPeerConnection] stores under is the text of the parsed
    key, the key that [operation] checks is the text it was given.  When the
    two differ and nobody else is at work, the check finds nothing whatever
    the attempt gave, and [operation] returns nil. *)
Lemma operation_key_not_canonical wgPort myKey peer att w :
  reachable w ->
  KeyString (fst (ParseKey (WgPubKey peer))) <> WgPubKey peer ->
  conns (engine w) !! WgPubKey peer = None ->
  during (open_oracle att) = [] ->
  before_check att = [] ->
  exists w', operation wgPort myKey peer att w = Some (None, w').
Proof.
  intros Hreach Hne Hk Hduring Hbefore. destruct (reachable_inv _ Hreach) as [Hmux Hwf].
  rewrite operation_unfold, openPeerConnection_unfold, blocked_in_Open_eq by assumption.
  rewrite Hduring, Hbefore. cbn [run_steps mret M_ret].
  erewrite Open_end_eq by (cbn; apply list_lookup_middle; reflexivity).
  cbn [ConnStatus Config].
  destruct (outcome (open_oracle att)); rewrite operation_check_eq by assumption;
    cbn; rewrite lookup_insert_ne, Hk by assumption; eauto.
Qed.

(** ** The mutex discipline *)

Lemma registerConnection_guarded wgPort myKey peer w a w' :
  PeerMux (engine w) = false ->
  registerConnection wgPort myKey peer w = Some (a, w') ->
  guarded (trace w') = guarded (trace w).
Proof.
  intros Hmux Hrun. rewrite registerConnection_eq in Hrun by assumption.
  injection Hrun as _ <-. reflexivity.
Qed.

Lemma RemovePeerConnection_guarded peer w r w' :
  PeerMux (engine w) = false ->
  RemovePeerConnection peer w = Some (r, w') ->
  guarded (trace w') = guarded (trace w).
Proof.
  intros Hmux Hrun.
  destruct (conns (engine w) !! WgPubKey peer) as [[|a]|] eqn:Hk.
  - rewrite RemovePeerConnection_nil in Hrun by assumption.
    injection Hrun as _ <-. reflexivity.
  - destruct (heap w !! a) as [c|] eqn:Ha.
    + rewrite (RemovePeerConnection_present _ _ _ _ Hmux Hk Ha) in Hrun.
      injection Hrun as _ <-. reflexivity.
    + rewrite (RemovePeerConnection_dangling _ _ _ Hk Ha) in Hrun. discriminate.
  - rewrite RemovePeerConnection_absent in Hrun by assumption.
    injection Hrun as _ <-. reflexivity.
Qed.

Lemma GetPeerConnectionStatus_guarded peerKey w r w' :
  PeerMux (engine w) = false ->
  GetPeerConnectionStatus peerKey w = Some (r, w') ->
  guarded (trace w') = guarded (trace w).
Proof.
  intros Hmux Hrun. rewrite GetPeerConnectionStatus_eq in Hrun by assumption.
  injection Hrun as _ <-. reflexivity.
Qed.

Lemma operation_check_guarded peer err w r w' :
  PeerMux (engine w) = false ->
  operation_check peer err w = Some (r, w') ->
  guarded (trace w') = guarded (trace w).
Proof.
  intros Hmux Hrun. rewrite operation_check_eq in Hrun by assumption.
  injection Hrun as _ <-. reflexivity.
Qed.

(** The routing handler never takes the mutex: its map read runs with the
    mutex in whatever state the other goroutines have it, free when they
    are between critical sections. *)
Lemma trace_ext_ret {A : Type} (a : A) : trace_ext (mret a).
Proof. intros v r v' Hrun. mrun. injection Hrun as _ <-. exists []. reflexivity. Qed.

Lemma trace_ext_bind {A B : Type} (m : M A) (f : A -> M B) :
  trace_ext m -> (forall a, trace_ext (f a)) -> trace_ext (m ≫= f).
Proof.
  intros Hm Hf v r v' Hrun. mrun.
  destruct (m v) as [[a v1]|] eqn:Hmv; [|discriminate].
  destruct (Hm _ _ _ Hmv) as [evs1 H1].
  destruct (Hf a _ _ _ Hrun) as [evs2 H2].
  exists (evs2 ++ evs1)%list. rewrite H2, H1. apply app_assoc.
Qed.

Lemma trace_ext_panic {A : Type} : trace_ext (panic (A := A)).
Proof. intros v r v' Hrun. discriminate. Qed.

Lemma trace_ext_log ev : trace_ext (log ev).
Proof. intros v r v' Hrun. mrun. injection Hrun as _ <-. exists [ev]. reflexivity. Qed.

Lemma trace_ext_deref a : trace_ext (deref a).
Proof.
  intros v r v' Hrun. unfold deref in Hrun.
  destruct (heap v !! a); [|discriminate]. injection Hrun as _ <-. exists []. reflexivity.
Qed.

Lemma trace_ext_set_status a st : trace_ext (set_status a st).
Proof.
  intros v r v' Hrun. unfold set_status in Hrun.
  destruct (heap v !! a); [|discriminate]. injection Hrun as _ <-. exists []. reflexivity.
Qed.

#[local] Hint Resolve trace_ext_ret trace_ext_panic trace_ext_log trace_ext_deref
  trace_ext_set_status : frame.

Ltac trace_ext :=
  repeat first
    [ solve [auto with frame]
    | apply trace_ext_bind; [|intros ?]
    | match goal with |- trace_ext (match ?x with _ => _ end) => destruct x end
    | match goal with |- trace_ext (if ?x then _ else _) => destruct x end ].

Lemma dispatch_trace a msg : trace_ext (dispatch a msg).
Proof. unfold dispatch, OnOffer, OnAnswer, OnRemoteCandidate. trace_ext. Qed.

Lemma handler_first_event msg w r w' :
  receiveSignal_handler msg w = Some (r, w') ->
  exists evs,
    trace w' = (evs ++ EvMapRead (PeerMux (engine w)) (MsgKey msg) :: trace w)%list.
Proof.
  intros Hrun.
  destruct (conns (engine w) !! MsgKey msg) as [[|a]|] eqn:Hk.
  - unfold receiveSignal_handler in Hrun. mrun. rewrite Hk in Hrun. cbn in Hrun.
    injection Hrun as _ <-. exists []. reflexivity.
  - destruct (heap w !! a) as [c|] eqn:Ha.
    + rewrite (handler_found _ _ _ _ Hk Ha) in Hrun.
      destruct (key_mismatch c msg).
      * injection Hrun as _ <-. exists []. reflexivity.
      * apply dispatch_trace in Hrun. exact Hrun.
    + unfold receiveSignal_handler, deref in Hrun. mrun. rewrite Hk in Hrun.
      cbn in Hrun. rewrite Ha in Hrun. discriminate.
  - rewrite handler_unknown_sender in Hrun by assumption.
    injection Hrun as _ <-. exists []. reflexivity.
Qed.

Lemma guarded_app t1 t2 : guarded (t1 ++ t2)%list = guarded t1 && guarded t2.
Proof. unfold guarded. apply forallb_app. Qed.

Lemma handler_unguarded msg w r w' :
  PeerMux (engine w) = false ->
  receiveSignal_handler msg w = Some (r, w') ->
  guarded (trace w') = false.
Proof.
  intros Hmux Hrun. destruct (handler_first_event _ _ _ _ Hrun) as [evs ->].
  rewrite guarded_app, Hmux. cbn. apply andb_false_r.
Qed.

End EngineProofs.
(** ** The key text that is given and the key text that is stored *)

Section KeyText.
Context {WG : WgTypes} {ICE : Ice} {SIG : Signal}.

(** [openPeerConnection] while no other goroutine is at work. *)
Lemma openPeerConnection_quiet wgPort myKey peer o w :
  inv w ->
  during o = [] ->
  let e := engine w in
  let remoteKey := fst (ParseKey (WgPubKey peer)) in
  let a := length (heap w) in
  openPeerConnection wgPort myKey peer o w =
    Some (match outcome o with
          | None => (Ref a, None)
          | Some err => (nil_ptr, Some err)
          end,
      mkWorld
        (with_conns (<[KeyString remoteKey := Ref a]> (conns e)) e)
        (heap w ++
           [mkConnection
              (mkConnConfig ("127.0.0.1:" +:+ pretty wgPort) (wgIP e) (wgIface e)
                 (WgAllowedIps peer) myKey remoteKey (stunsTurns e)
                 (e_iFaceBlackList e))
              (match outcome o with
               | None => StatusConnected
               | Some _ => StatusFailed
               end)])
        (EvOpen a :: EvUnlock :: EvMapWrite true (KeyString remoteKey) (Ref a)
           :: EvNewConnection a :: EvLock :: trace w)).
Proof.
  intros [Hmux Hwf] Hduring e remoteKey a.
  rewrite openPeerConnection_unfold, blocked_in_Open_eq by assumption.
  rewrite Hduring. cbn [run_steps mret M_ret].
  erewrite Open_end_eq by (cbn; apply list_lookup_middle; reflexivity).
  cbn [ConnStatus Config].
  destruct (outcome o) as [err|]; cbn [engine heap trace];
    rewrite insert_app_r_alt by lia; rewrite Nat.sub_diag; reflexivity.
Qed.

(** One run of [operation] while no other goroutine is at work. *)
Lemma operation_quiet wgPort myKey peer att w :
  inv w ->
  during (open_oracle att) = [] ->
  before_check att = [] ->
  let e := engine w in
  let remoteKey := fst (ParseKey (WgPubKey peer)) in
  let a := length (heap w) in
  let conns' := <[KeyString remoteKey := Ref a]> (conns e) in
  operation wgPort myKey peer att w =
    Some (match conns' !! WgPubKey peer with
          | Some _ => outcome (open_oracle att)
          | None => None
          end,
      mkWorld
        (with_conns conns' e)
        (heap w ++
           [mkConnection
              (mkConnConfig ("127.0.0.1:" +:+ pretty wgPort) (wgIP e) (wgIface e)
                 (WgAllowedIps peer) myKey remoteKey (stunsTurns e)
                 (e_iFaceBlackList e))
              (match outcome (open_oracle att) with
               | None => StatusConnected
               | Some _ => StatusFailed
               end)])
        (EvUnlock :: EvMapRead true (WgPubKey peer) :: EvLock
           :: EvOpen a :: EvUnlock :: EvMapWrite true (KeyString remoteKey) (Ref a)
           :: EvNewConnection a :: EvLock :: trace w)).
Proof.
  intros [Hmux Hwf] Hduring Hbefore e remoteKey a conns'.
  rewrite operation_unfold, openPeerConnection_unfold, blocked_in_Open_eq by assumption.
  rewrite Hduring, Hbefore. cbn [run_steps mret M_ret].
  erewrite Open_end_eq by (cbn; apply list_lookup_middle; reflexivity).
  cbn [ConnStatus Config].
  destruct (outcome (open_oracle att)) as [err|];
    rewrite operation_check_eq by assumption; cbn [engine heap trace conns with_conns snd];
    rewrite insert_app_r_alt by lia; rewrite Nat.sub_diag; reflexivity.
Qed.

(** C3 does not hold of the code.  [openPeerConnection] stores the
    Connection under the text that [Key.String] gives for the parsed key,
    and the check of [operation] looks under the text [peer.WgPubKey].  Take
    a peer whose text is not the one [Key.String] gives (a key followed by
    a line feed, or a text that is no key) and let no other goroutine be at
    work.  The attempt fails; the entry that the attempt stored for the peer
    is in the map, with the Connection it made, and the map has lost
    nothing; yet [operation] returns nil, and [Retry] returns without another
    attempt. *)
Theorem operation_gives_up_with_the_entry_in_place (w : World) (wgPort : Z)
    (myKey : Key) (peer : Peer) (b : ExponentialBackOff) (rd : Round)
    (rounds : list Round) (err : error) :
  reachable w ->
  KeyString (fst (ParseKey (WgPubKey peer))) <> WgPubKey peer ->
  conns (engine w) !! WgPubKey peer = None ->
  during (open_oracle (attempt rd)) = [] ->
  before_check (attempt rd) = [] ->
  outcome (open_oracle (attempt rd)) = Some err ->
  let k := KeyString (fst (ParseKey (WgPubKey peer))) in
  let a := length (heap w) in
  exists w1 w3 c,
    openPeerConnection wgPort myKey peer (open_oracle (attempt rd)) w
      = Some ((nil_ptr, Some err), w1) /\
    operation wgPort myKey peer (attempt rd) w = Some (None, w3) /\
    RetryLoop (operation wgPort myKey peer) b (rd :: rounds) w = Some (Some None, w3) /\
    conns (engine w3) = <[k := Ref a]> (conns (engine w)) /\
    heap w3 !! a = Some c /\
    RemoteWgKey (Config c) = fst (ParseKey (WgPubKey peer)) /\
    ConnStatus c = StatusFailed /\
    trace w3 = EvUnlock :: EvMapRead true (WgPubKey peer) :: EvLock :: trace w1.
Proof.
  intros Hreach Hne Hk Hduring Hbefore Hout k a.
  pose proof (reachable_inv _ Hreach) as Hinv.
  pose proof (operation_quiet wgPort myKey peer (attempt rd) w Hinv Hduring Hbefore)
    as Hop.
  cbv zeta in Hop. rewrite lookup_insert_ne, Hk, Hout in Hop by assumption.
  eexists _, _, _. split.
  { rewrite (openPeerConnection_quiet _ _ _ _ _ Hinv Hduring), Hout. reflexivity. }
  split; [exact Hop|].
  split; [rewrite RetryLoop_cons, Hop; reflexivity|].
  cbn [engine heap trace conns with_conns].
  split; [reflexivity|].
  split; [apply list_lookup_middle; reflexivity|].
  repeat split; reflexivity.
Qed.

(** C6 does not hold of the code, for the same reason: [RemovePeerConnection]
    looks under the text [peer.WgPubKey].  Take the same kind of peer, let
    its Open succeed with no other goroutine at work, and remove the peer.
    The map has the entry of the peer, whose Connection is connected;
    [RemovePeerConnection] returns nil, deletes nothing and closes nothing:
    it leaves the engine and every connection as they were. *)
Theorem RemovePeerConnection_misses_the_entry_of_the_peer (w : World) (wgPort : Z)
    (myKey : Key) (peer : Peer) (o : OpenOracle) :
  reachable w ->
  KeyString (fst (ParseKey (WgPubKey peer))) <> WgPubKey peer ->
  conns (engine w) !! WgPubKey peer = None ->
  during o = [] ->
  outcome o = None ->
  let k := KeyString (fst (ParseKey (WgPubKey peer))) in
  let a := length (heap w) in
  exists w1 c,
    openPeerConnection wgPort myKey peer o w = Some ((Ref a, None), w1) /\
    conns (engine w1) !! k = Some (Ref a) /\
    heap w1 !! a = Some c /\
    RemoteWgKey (Config c) = fst (ParseKey (WgPubKey peer)) /\
    ConnStatus c = StatusConnected /\
    RemovePeerConnection peer w1 =
      Some (None, mkWorld (engine w1) (heap w1)
                    (EvUnlock :: EvMapRead true (WgPubKey peer) :: EvLock :: trace w1)).
Proof.
  intros Hreach Hne Hk Hduring Hout k a.
  pose proof (reachable_inv _ Hreach) as Hinv.
  pose proof (openPeerConnection_quiet wgPort myKey peer o w Hinv Hduring) as Hopen.
  cbv zeta in Hopen. rewrite Hout in Hopen.
  destruct (inv_openPeerConnection _ _ _ _ _ _ _ Hinv Hopen) as [Hmux1 _].
  eexists _, _. split; [exact Hopen|].
  cbn [engine heap trace conns with_conns] in *.
  split; [apply lookup_insert_eq|].
  split; [apply list_lookup_middle; reflexivity|].
  split; [reflexivity|]. split; [reflexivity|].
  apply RemovePeerConnection_absent; [assumption|].
  cbn [engine conns with_conns]. rewrite lookup_insert_ne by assumption. exact Hk.
Qed.

End KeyText.

(** ** The engine on examples *)

Section EngineExamples.
#[local] Existing Instance wgtypes_model.
#[local] Existing Instance ice_model.
#[local] Existing Instance signal_model.

Example kB_is_canonical : KeyString (fst (ParseKey kB)) = kB /\ fst (ParseKey kB) = keyB.
Proof. vm_compute. split; reflexivity. Qed.

Example peerX_key_is_zero :
  ParseKey "not-a-key" = (zero_key, Some "wgtypes: failed to parse base64-encoded key") /\
  KeyString zero_key = "AAAAAAAAAAAAAAAAAAAAAAAAAAAAAAAAAAAAAAAAAAA=".
Proof. vm_compute. split; reflexivity. Qed.

Lemma reachable_world0 : reachable world0.
Proof. apply reachable_new. Defined.

Lemma reachable_world_blocked : reachable world_blocked.
Proof.
  assert (H1 : run_step register_B world0 = Some (tt, world_registered))
    by (vm_compute; reflexivity).
  assert (H2 : run_step (StepOpenBegin 0) world_registered = Some (tt, world_blocked))
    by (vm_compute; reflexivity).
  exact (reachable_step _ _ _ (reachable_step _ _ _ reachable_world0 H1) H2).
Defined.

Lemma reachable_world_connected : reachable world_connected.
Proof.
  assert (H1 : run_step (StepOpenEnd 0 None) world_blocked = Some (tt, world_connected))
    by (vm_compute; reflexivity).
  exact (reachable_step _ _ _ reachable_world_blocked H1).
Defined.

(** C9 at the world where the connection to [peerB] is established. *)
Lemma map_entries_keyed_by_remote_key_witness :
  (exists a c,
     conns (engine world_connected) !! kB = Some (Ref a) /\
     heap world_connected !! a = Some c /\
     KeyString (RemoteWgKey (Config c)) = kB /\
     key_mismatch c offer_from_B = false) /\
  receiveSignal_handler offer_from_B world_connected =
    (_ ← conns_index kB; dispatch 0 offer_from_B) world_connected.
Proof.
  destruct (map_entries_keyed_by_remote_key world_connected reachable_world_connected)
    as (Hwf & Hmis & Hhandler).
  assert (Hk : conns (engine world_connected) !! kB = Some (Ref 0))
    by (vm_compute; reflexivity).
  split.
  - destruct (Hwf kB (Ref 0) Hk) as (a & c & Heq & Hc & Hkey).
    exists a, c. injection Heq as <-. repeat (split; [assumption|]).
    apply (Hmis offer_from_B 0%nat c Hk Hc).
  - apply (Hhandler offer_from_B 0%nat Hk).
Defined.

(** C7 at an OFFER from a key the engine has no connection for. *)
Lemma unknown_sender_is_dropped_witness :
  receiveSignal_handler offer_from_unknown world_connected =
    Some (Some "wrongly addressed message AQEBAQEBAQEBAQEBAQEBAQEBAQEBAQEBAQEBAQEBAQE=",
          mkWorld (engine world_connected) (heap world_connected)
            (EvMapRead false "AQEBAQEBAQEBAQEBAQEBAQEBAQEBAQEBAQEBAQEBAQE="
               :: trace world_connected)).
Proof.
  apply (unknown_sender_is_dropped world_connected offer_from_unknown).
  vm_compute. reflexivity.
Defined.

(** C8 at a CANDIDATE message from [peerB] whose payload is not a candidate. *)
Lemma unparseable_candidate_is_dropped_witness :
  exists e w',
    receiveSignal_handler bad_candidate world_blocked = Some (Some e, w') /\
    engine w' = engine world_blocked /\ heap w' = heap world_blocked /\
    trace w' = EvMapRead false kB :: trace world_blocked /\
    exists w2,
      receiveSignal [bad_candidate; good_candidate] world_blocked = Some (tt, w2) /\
      trace w2 = EvOnRemoteCandidate 0 good_candidate_text
                   :: EvMapRead false kB :: trace w'.
Proof.
  assert (Hbad : UnmarshalCandidate (list_byte_of_string "garbage")
                 = inr "attribute not long enough to be ICE candidate")
    by (vm_compute; reflexivity).
  assert (Hgood : UnmarshalCandidate (list_byte_of_string good_candidate_text)
                  = inl good_candidate_text)
    by (vm_compute; reflexivity).
  assert (Hk : conns (engine world_blocked) !! MsgKey bad_candidate = Some (Ref 0))
    by (vm_compute; reflexivity).
  destruct (unparseable_candidate_is_dropped world_blocked bad_candidate
              (mkBody Body_CANDIDATE (list_byte_of_string "garbage"))
              "attribute not long enough to be ICE candidate"
              reachable_world_blocked eq_refl eq_refl Hbad)
    as (e & w' & Hrun & He & Hh & Htr & Hnext).
  exists e, w'. repeat (split; [assumption|]).
  destruct (Hnext good_candidate
              (mkBody Body_CANDIDATE (list_byte_of_string good_candidate_text))
              good_candidate_text 0%nat eq_refl eq_refl eq_refl Hgood Hk)
    as (r2 & w2 & _ & Hboth & Htr2).
  exists w2. split; assumption.
Defined.

(** X16 at the removal of [peerB], connected, and of a peer never added. *)
Lemma RemovePeerConnection_deletes_and_closes_witness :
  (exists w',
     RemovePeerConnection peerB world_connected = Some (None, w') /\
     conns (engine w') !! kB = None /\
     ConnStatus <$> heap w' !! 0%nat = Some StatusClosed) /\
  RemovePeerConnection peerX world_connected =
    Some (None, mkWorld (engine world_connected) (heap world_connected)
                  (EvUnlock :: EvMapRead true "not-a-key" :: EvLock
                     :: trace world_connected)).
Proof.
  split.
  - destruct (RemovePeerConnection_deletes_and_closes world_connected peerB
                reachable_world_connected) as (Hpresent & _ & _).
    assert (Hk : conns (engine world_connected) !! WgPubKey peerB = Some (Ref 0))
      by (vm_compute; reflexivity).
    destruct (Hpresent (Ref 0) Hk) as (a & c & Heq & Hc & Hrun).
    injection Heq as <-. eexists. split; [exact Hrun|]. split.
    + cbn. apply lookup_delete_eq.
    + cbn. rewrite list_lookup_insert_eq by (eapply lookup_lt_Some; eassumption).
      reflexivity.
  - apply (RemovePeerConnection_deletes_and_closes world_connected peerX
             reachable_world_connected).
    vm_compute. reflexivity.
Defined.

(** C4 as stated fails: [peerB] is opened while another goroutine opens
    the same peer.  The first call stored the connection 0; its Open times
    out; no RemovePeerConnection ran; the map holds the connection 1. *)
Lemma openPeerConnection_entry_replaced_meanwhile :
  let o := mkOpenOracle [StepRegister 51820 keyA peerB] (Some "timeout") in
  (w ← blocked_in_Open 51820 keyA peerB world0;
   Some (fst w, conns (engine (snd w)) !! kB)) = Some (0%nat, Some (Ref 0)) /\
  Forall (fun s => forall peer, s <> StepRemove peer) (during o) /\
  (w ← openPeerConnection 51820 keyA peerB o world0;
   Some (fst w, conns (engine (snd w)) !! kB)) =
    Some ((nil_ptr, Some "timeout"), Some (Ref 1)).
Proof.
  split; [vm_compute; reflexivity|]. split; [|vm_compute; reflexivity].
  repeat constructor. intros peer Heq. discriminate.
Qed.

(** C4, amended, at an Open of [peerB] that times out while another
    goroutine asks for a status. *)
Lemma openPeerConnection_failure_keeps_entry_witness :
  exists err' w4,
    openPeerConnection 51820 keyA peerB
      (mkOpenOracle [StepStatus kB] (Some "timeout")) world0
      = Some ((nil_ptr, Some err'), w4) /\
    conns (engine w4) !! kB = Some (Ref 0).
Proof.
  assert (Hb : blocked_in_Open 51820 keyA peerB world0 = Some (0%nat, world_blocked))
    by (vm_compute; reflexivity).
  assert (Hs : run_steps [StepStatus kB] world_blocked
               = Some (tt, after (run_steps [StepStatus kB]) world_blocked))
    by (vm_compute; reflexivity).
  destruct (openPeerConnection_failure_keeps_entry world0 51820 keyA peerB
              (mkOpenOracle [StepStatus kB] (Some "timeout")) "timeout"
              0%nat world_blocked
              (after (run_steps [StepStatus kB]) world_blocked)
              reachable_world0 eq_refl Hb Hs)
    as (err' & w4 & Hrun & _ & _ & Hkeep).
  exists err', w4. split; [exact Hrun|].
  apply Hkeep. repeat constructor. cbn. discriminate.
Defined.

(** C1 as stated fails: [peerB] is opened and connects, then it is opened
    again.  After the second call the map holds the connection 1, the
    connection 0 is still Connected, and Close was never called. *)
Lemma openPeerConnection_leaves_earlier_connection_open :
  let o := mkOpenOracle [] None in
  openPeerConnection 51820 keyA peerB o world0 = Some ((Ref 0, None), world_connected) /\
  conns (engine world_connected) !! kB = Some (Ref 0) /\
  (w ← openPeerConnection 51820 keyA peerB o world_connected;
   Some (fst w, conns (engine (snd w)) !! kB,
         ConnStatus <$> heap (snd w) !! 0%nat,
         forallb (fun ev => match ev with EvClose _ => false | _ => true end)
                 (trace (snd w)))) =
    Some ((Ref 1, None), Some (Ref 1), Some StatusConnected, true).
Proof. vm_compute. repeat split; reflexivity. Qed.

(** C1, amended, at the second opening of [peerB]. *)
Lemma openPeerConnection_replaces_entry_witness :
  exists a w1 r w',
    registerConnection 51820 keyA peerB world_connected = Some (a, w1) /\
    conns (engine w1) = <[kB := Ref a]> (conns (engine world_connected)) /\
    dom (conns (engine w1)) = dom (conns (engine world_connected)) /\
    Ref 0 <> Ref a /\
    openPeerConnection 51820 keyA peerB (mkOpenOracle [] None) world_connected
      = Some (r, w') /\
    heap w' !! 0%nat = heap world_connected !! 0%nat.
Proof.
  assert (Hk : conns (engine world_connected) !! KeyString (fst (ParseKey (WgPubKey peerB)))
               = Some (Ref 0))
    by (vm_compute; reflexivity).
  destruct (openPeerConnection_replaces_entry world_connected 51820 keyA peerB
              (mkOpenOracle [] None) (Ref 0) reachable_world_connected Hk eq_refl)
    as (a & w1 & r & w' & Hreg & Hconns & Hdom & Hne & _ & Hrun & _ & Hheap & _).
  exists a, w1, r, w'. repeat (split; [assumption|]).
  destruct (heap world_connected !! 0%nat) as [c|] eqn:Hc.
  - rewrite (Hheap _ _ Hc). reflexivity.
  - vm_compute in Hc. discriminate.
Defined.

(** X17 at a first attempt for [peerB] that times out while the peer is
    removed: [operation] returns nil and [Retry] is over. *)
Lemma operation_result_decides_retry_witness :
  let rd := mkRound (mkAttempt (mkOpenOracle [StepRemove peerB] (Some "timeout")) [])
              0 0 [] in
  exists w3,
    operation 51820 keyA peerB (attempt rd) world0 = Some (None, w3) /\
    RetryLoop (operation 51820 keyA peerB) (Reset backOff) [rd; rd] world0
      = Some (Some None, w3).
Proof.
  intros rd.
  pose (o := mkOpenOracle [StepRemove peerB] (Some "timeout")).
  pose (w1 := after (openPeerConnection 51820 keyA peerB o) world0).
  assert (Hopen : openPeerConnection 51820 keyA peerB o world0
                  = Some ((nil_ptr, Some "connection has been closed"), w1))
    by (vm_compute; reflexivity).
  destruct (operation_result_decides_retry world0 51820 keyA peerB (Reset backOff)
              rd [rd] (nil_ptr, Some "connection has been closed") w1 w1
              reachable_world0 policy_inv_Reset Hopen eq_refl)
    as (Hgone & _ & _).
  eexists. apply Hgone. vm_compute. reflexivity.
Defined.

Example kB_newline_is_not_canonical :
  ParseKey kB_newline = (keyB, None) /\ KeyString keyB = kB /\ kB <> kB_newline.
Proof.
  split; [vm_compute; reflexivity|]. split; [vm_compute; reflexivity|].
  apply String.eqb_neq. vm_compute. reflexivity.
Qed.

(** C3 at [peerB_newline]: its first attempt times out, with no other
    goroutine at work.  The map holds its connection under [kB], failed;
    [operation] returns nil and [Retry] is over. *)
Lemma operation_gives_up_with_the_entry_in_place_witness :
  let rd := mkRound (mkAttempt (mkOpenOracle [] (Some "timeout")) []) 0 0 [] in
  exists w3,
    operation 51820 keyA peerB_newline (attempt rd) world0 = Some (None, w3) /\
    RetryLoop (operation 51820 keyA peerB_newline) (Reset backOff) [rd; rd] world0
      = Some (Some None, w3) /\
    conns (engine w3) !! kB = Some (Ref 0) /\
    ConnStatus <$> heap w3 !! 0%nat = Some StatusFailed.
Proof.
  intros rd.
  assert (Hne : KeyString (fst (ParseKey (WgPubKey peerB_newline)))
                <> WgPubKey peerB_newline)
    by (apply String.eqb_neq; vm_compute; reflexivity).
  assert (Hk : conns (engine world0) !! WgPubKey peerB_newline = None)
    by (vm_compute; reflexivity).
  destruct (operation_gives_up_with_the_entry_in_place world0 51820 keyA
              peerB_newline (Reset backOff) rd [rd] "timeout" reachable_world0
              Hne Hk eq_refl eq_refl eq_refl)
    as (w1 & w3 & c & _ & Hop & Hretry & Hconns & Hc & _ & Hst & _).
  exists w3. split; [exact Hop|]. split; [exact Hretry|]. split.
  - rewrite Hconns. vm_compute. reflexivity.
  - change (length (heap world0)) with 0%nat in Hc. rewrite Hc. cbn. rewrite Hst.
    reflexivity.
Defined.

(** C6 at [peerB_newline]: opened and connected, then removed.  The
    removal looks under the text with the line feed, finds nothing and
    leaves the connection in the map, connected. *)
Lemma RemovePeerConnection_misses_the_entry_of_the_peer_witness :
  exists w1,
    openPeerConnection 51820 keyA peerB_newline (mkOpenOracle [] None) world0
      = Some ((Ref 0, None), w1) /\
    conns (engine w1) !! kB = Some (Ref 0) /\
    ConnStatus <$> heap w1 !! 0%nat = Some StatusConnected /\
    RemovePeerConnection peerB_newline w1 =
      Some (None, mkWorld (engine w1) (heap w1)
                    (EvUnlock :: EvMapRead true kB_newline :: EvLock :: trace w1)).
Proof.
  assert (Hne : KeyString (fst (ParseKey (WgPubKey peerB_newline)))
                <> WgPubKey peerB_newline)
    by (apply String.eqb_neq; vm_compute; reflexivity).
  assert (Hk : conns (engine world0) !! WgPubKey peerB_newline = None)
    by (vm_compute; reflexivity).
  destruct (RemovePeerConnection_misses_the_entry_of_the_peer world0 51820 keyA
              peerB_newline (mkOpenOracle [] None) reachable_world0
              Hne Hk eq_refl eq_refl)
    as (w1 & c & Hopen & Hconns & Hc & _ & Hst & Hremove).
  exists w1. split; [exact Hopen|]. split.
  - assert (Hkey : KeyString (fst (ParseKey (WgPubKey peerB_newline))) = kB)
      by (vm_compute; reflexivity).
    rewrite <- Hkey. exact Hconns.
  - change (length (heap world0)) with 0%nat in Hc. split.
    + rewrite Hc. cbn. rewrite Hst. reflexivity.
    + exact Hremove.
Defined.

(** C2: an OFFER from [peerB] arrives while the connection to [peerB] is
    being opened.  No goroutine holds the mutex, the handler does not take
    it, and its read of the connection map runs without it: the trace,
    guarded up to there, is not guarded any more. *)
Example receiveSignal_reads_map_without_mutex :
  PeerMux (engine world_blocked) = false /\
  guarded (trace world_blocked) = true /\
  (w ← receiveSignal_handler offer_from_B world_blocked;
   Some (fst w, trace (snd w), guarded (trace (snd w)))) =
    Some (None,
          EvOnOffer 0 (mkIceCredentials "ufragB" "pwdB")
            :: EvMapRead false kB :: trace world_blocked,
          false).
Proof. vm_compute. repeat split; reflexivity. Qed.

(** C5: [peerX] has a public key that is not the text of a key.  Every
    Open times out and nobody removes the peer, yet [InitializePeer]
    returns after its first attempt: the connection was stored under the
    text of the zero key, the check looked under the text given and found
    nothing.  For [peerB] the same rounds leave the loop running. *)
Example InitializePeer_stops_for_a_key_that_is_not_canonical :
  let rd := mkRound (mkAttempt (mkOpenOracle [] (Some "timeout")) []) 0 0 [] in
  (w ← InitializePeer 51820 keyA peerX [rd; rd; rd] world0;
   Some (fst w,
         map_to_list (conns (engine (snd w))),
         map ConnStatus (heap (snd w)),
         trace (snd w))) =
    Some (Some tt,
          [("AAAAAAAAAAAAAAAAAAAAAAAAAAAAAAAAAAAAAAAAAAA=", Ref 0)],
          [StatusFailed],
          [EvUnlock; EvMapRead true "not-a-key"; EvLock;
           EvOpen 0; EvUnlock;
           EvMapWrite true "AAAAAAAAAAAAAAAAAAAAAAAAAAAAAAAAAAAAAAAAAAA=" (Ref 0);
           EvNewConnection 0; EvLock]) /\
  (w ← InitializePeer 51820 keyA peerB [rd; rd; rd] world0;
   Some (fst w, map ConnStatus (heap (snd w)))) =
    Some (None, [StatusFailed; StatusFailed; StatusFailed]).
Proof. vm_compute. split; reflexivity. Qed.

End EngineExamples.

(** ** The configuration file: writing and reading back *)

Section ConfigProofs.
Import json cmd.
Local Open Scope list_scope.
Local Open Scope N_scope.

(** *** UTF-8 *)

Lemma utf8_first_app seq rest tail :
  utf8_first (seq ++ rest) = Some (seq, rest) ->
  utf8_first (seq ++ tail) = Some (seq, tail).
Proof.
  intros H.
  destruct seq as [|b1 [|b2 [|b3 [|b4 [|b5 seq]]]]]; cbn [app] in *;
    unfold utf8_first in *.
  - destruct rest as [|c1 [|c2 r2]]; try discriminate.
    repeat (case_match; simplify_eq).
  - destruct rest as [|c2 r2]; try discriminate.
    repeat (case_match; simplify_eq).
  - destruct (lead2 b1 && cont b2); [reflexivity|].
    repeat (case_match; simplify_eq).
  - destruct (lead2 b1 && cont b2); [simplify_eq|].
    destruct (lead3 b1 b2 && cont b3); [reflexivity|].
    repeat (case_match; simplify_eq).
  - destruct (lead2 b1 && cont b2); [simplify_eq|].
    destruct (lead3 b1 b2 && cont b3); [simplify_eq|].
    destruct (lead4 b1 b2 && cont b3 && cont b4); [reflexivity|discriminate].
  - repeat (case_match; simplify_eq).
Qed.

Lemma utf8_first_head seq rest :
  utf8_first (seq ++ rest) = Some (seq, rest) ->
  exists b seq', seq = b :: seq' /\ 0xC2 <= code b.
Proof.
  intros H.
  assert (Hlead : forall b1 b2 s r,
            utf8_first (b1 :: b2 :: s) = Some r -> 0xC2 <= code b1).
  { intros b1 b2 s r Hr. unfold utf8_first in Hr.
    assert (H2 : lead2 b1 = true -> 0xC2 <= code b1).
    { unfold lead2, in_range. intros Hb. apply andb_true_iff in Hb as [Hb _].
      apply N.leb_le. assumption. }
    assert (H3 : lead3 b1 b2 = true -> 0xC2 <= code b1).
    { unfold lead3, in_range, cont, in_range. intros Hb.
      repeat (apply orb_true_iff in Hb as [Hb|Hb]);
        repeat (apply andb_true_iff in Hb as [Hb ?]);
        repeat match goal with
               | Hx : (_ =? _) = true |- _ => apply N.eqb_eq in Hx
               | Hx : (_ <=? _) = true |- _ => apply N.leb_le in Hx
               end; lia. }
    assert (H4 : lead4 b1 b2 = true -> 0xC2 <= code b1).
    { unfold lead4, in_range, cont, in_range. intros Hb.
      repeat (apply orb_true_iff in Hb as [Hb|Hb]);
        repeat (apply andb_true_iff in Hb as [Hb ?]);
        repeat match goal with
               | Hx : (_ =? _) = true |- _ => apply N.eqb_eq in Hx
               | Hx : (_ <=? _) = true |- _ => apply N.leb_le in Hx
               end; lia. }
    destruct (lead2 b1) eqn:E2; [auto|]. cbn [andb] in Hr.
    destruct s as [|b3 s]; [discriminate|].
    destruct (lead3 b1 b2) eqn:E3; [auto|]. cbn [andb] in Hr.
    destruct s as [|b4 s]; [discriminate|].
    destruct (lead4 b1 b2) eqn:E4; [auto|]. cbn [andb] in Hr. discriminate. }
  destruct seq as [|b1 seq].
  - cbn [app] in H. destruct rest as [|c1 [|c2 r]]; try discriminate.
    unfold utf8_first in H. repeat (case_match; simplify_eq).
  - exists b1, seq. split; [reflexivity|].
    destruct seq as [|b2 seq]; cbn [app] in H.
    + destruct rest as [|c2 r]; [discriminate|]. eapply Hlead. eassumption.
    + eapply Hlead. eassumption.
Qed.

(** *** String literals *)

Lemma code_lt_128_cases (P : ascii -> Prop) :
  (forall b0 b1 b2 b3 b4 b5 b6, P (Ascii b0 b1 b2 b3 b4 b5 b6 false)) ->
  forall b, code b < 0x80 -> P b.
Proof.
  intros HP [b0 b1 b2 b3 b4 b5 b6 b7] Hb. destruct b7; [|apply HP].
  exfalso. unfold code in Hb.
  destruct b0, b1, b2, b3, b4, b5, b6; vm_compute in Hb; discriminate.
Qed.

Lemma dec_chars_enc_ascii b f tail :
  code b < 0x80 ->
  dec_chars (S f) (enc_ascii b ++ tail) = emit [b] (dec_chars f tail).
Proof.
  revert b. apply code_lt_128_cases.
  intros b0 b1 b2 b3 b4 b5 b6.
  destruct b0, b1, b2, b3, b4, b5, b6; reflexivity.
Qed.

Lemma enc_ascii_length b : (0 < length (enc_ascii b))%nat.
Proof. unfold enc_ascii. repeat case_match; cbn; lia. Qed.

Lemma enc_rune_length seq : seq <> [] -> (0 < length (enc_rune seq))%nat.
Proof.
  intros Hne. unfold enc_rune. repeat case_match; cbn; try lia.
  destruct seq; [congruence | cbn; lia].
Qed.

Lemma head_not_special b :
  0xC2 <= code b ->
  Ascii.eqb b QUOTE = false /\ Ascii.eqb b "\" = false /\
  (code b <? 0x20) = false /\ (code b <? 0x80) = false.
Proof.
  intros Hb. repeat split.
  - apply Ascii.eqb_neq. intros ->. vm_compute in Hb. congruence.
  - apply Ascii.eqb_neq. intros ->. vm_compute in Hb. congruence.
  - apply N.ltb_ge. lia.
  - apply N.ltb_ge. lia.
Qed.

Lemma dec_chars_enc_rune seq rest f tail :
  utf8_first (seq ++ rest) = Some (seq, rest) ->
  dec_chars (S f) (enc_rune seq ++ tail) = emit seq (dec_chars f tail).
Proof.
  intros Hseq. unfold enc_rune.
  case_bool_decide as Hls; [subst; reflexivity|].
  case_bool_decide as Hps; [subst; reflexivity|].
  destruct (utf8_first_head _ _ Hseq) as (b & seq' & -> & Hb).
  destruct (head_not_special b Hb) as (Hq & Hbs & Hc & Ha).
  pose proof (utf8_first_app _ _ tail Hseq) as Htail.
  cbn [app] in *. cbn [dec_chars]. rewrite Hq, Hbs, Hc, Ha, Htail. reflexivity.
Qed.

Lemma enc_chars_ascii f b s :
  code b < 0x80 ->
  enc_chars (S f) (b :: s) = enc_ascii b ++ enc_chars f s.
Proof.
  intros Hb. cbn [enc_chars]. apply N.ltb_lt in Hb. rewrite Hb. reflexivity.
Qed.

Lemma enc_chars_seq f seq rest :
  utf8_first (seq ++ rest) = Some (seq, rest) ->
  enc_chars (S f) (seq ++ rest) = enc_rune seq ++ enc_chars f rest.
Proof.
  intros Hseq.
  destruct (utf8_first_head _ _ Hseq) as (b & seq' & -> & Hb).
  destruct (head_not_special b Hb) as (_ & _ & _ & Ha).
  cbn [app] in *. cbn [enc_chars]. rewrite Ha, Hseq. reflexivity.
Qed.

(** A valid string, written and read back: the closing quote ends it. *)
Lemma dec_chars_enc_chars s :
  utf8_valid s ->
  forall f f' tail,
    (length s <= f)%nat ->
    (length (enc_chars f s) < f')%nat ->
    dec_chars f' (enc_chars f s ++ QUOTE :: tail) = Some (s, tail).
Proof.
  induction 1 as [| b s Hb Hs IH | seq rest Hseq Hrest IH]; intros f f' tail Hf Hf'.
  - destruct f'; [lia|]. destruct f; reflexivity.
  - cbn [length] in Hf. destruct f as [|f]; [lia|].
    rewrite enc_chars_ascii in * by assumption.
    pose proof (enc_ascii_length b). rewrite length_app in Hf'.
    destruct f' as [|f']; [lia|].
    rewrite <- app_assoc, dec_chars_enc_ascii by assumption.
    rewrite IH by lia. reflexivity.
  - destruct (utf8_first_head _ _ Hseq) as (b & seq' & Heq & Hb).
    assert (Hne : seq <> []) by (subst; discriminate).
    assert (Hlen : (0 < length seq)%nat) by (subst; cbn; lia).
    rewrite length_app in Hf. destruct f as [|f]; [lia|].
    rewrite enc_chars_seq in * by assumption.
    pose proof (enc_rune_length seq Hne). rewrite length_app in Hf'.
    destruct f' as [|f']; [lia|].
    rewrite <- app_assoc, (dec_chars_enc_rune seq rest) by assumption.
    rewrite IH by lia. reflexivity.
Qed.

Lemma skip_ws_nonws c l : is_ws c = false -> skip_ws (c :: l) = c :: l.
Proof. intros Hc. cbn [skip_ws]. rewrite Hc. reflexivity. Qed.

Lemma dec_string_enc_string s cur tail :
  valid_string s ->
  dec_string cur (enc_string s ++ tail) = Some (s, tail).
Proof.
  intros Hs. unfold dec_string, enc_string.
  rewrite <- app_assoc. cbn [app].
  rewrite skip_ws_nonws by reflexivity. cbn [lit_null].
  rewrite dec_chars_enc_chars; [| assumption | lia | rewrite length_app; cbn; lia].
  rewrite string_of_list_ascii_of_string. reflexivity.
Qed.

(** *** Numbers *)













(** *** Slices and pointers *)













(** *** Structs *)

Lemma into_roundtrip {S A : Type} (get : S -> A) set (dec : decoder A) cur l v r :
  dec (get cur) l = Some (v, r) ->
  into get set dec cur l = Some (set v cur, r).
Proof. intros Hdec. unfold into. rewrite Hdec. reflexivity. Qed.

Lemma dec_members_key {S : Type} (f : nat) (field : string -> option (decoder S))
    (cur : S) name d value rest :
  valid_string name ->
  field name = Some d ->
  dec_members (Datatypes.S f) field cur (enc_member name value ++ rest) =
    match d cur (value ++ rest) with
    | Some (cur', r3) =>
        match skip_ws r3 with
        | ","%char :: r4 => dec_members f field cur' r4
        | "}"%char :: r4 => Some (cur', r4)
        | _ => None
        end
    | None => None
    end.
Proof.
  intros Hname Hfield. unfold enc_member, enc_string.
  rewrite <- !app_assoc. cbn [app dec_members].
  rewrite skip_ws_nonws by reflexivity. cbv beta iota.
  rewrite dec_chars_enc_chars;
    [| assumption | lia | rewrite !length_app; cbn [length]; lia].
  rewrite string_of_list_ascii_of_string, Hfield.
  rewrite skip_ws_nonws by reflexivity. reflexivity.
Qed.

Lemma dec_members_comma {S : Type} (f : nat) (field : string -> option (decoder S))
    (cur cur' : S) name d value rest :
  valid_string name ->
  field name = Some d ->
  d cur (value ++ ","%char :: rest) = Some (cur', ","%char :: rest) ->
  dec_members (Datatypes.S f) field cur (enc_member name value ++ ","%char :: rest) =
    dec_members f field cur' rest.
Proof.
  intros Hname Hfield Hd. rewrite (dec_members_key f field cur name d) by assumption.
  rewrite Hd. reflexivity.
Qed.

Lemma dec_members_close {S : Type} (f : nat) (field : string -> option (decoder S))
    (cur cur' : S) name d value rest :
  valid_string name ->
  field name = Some d ->
  d cur (value ++ "}"%char :: rest) = Some (cur', "}"%char :: rest) ->
  dec_members (Datatypes.S f) field cur (enc_member name value ++ "}"%char :: rest) =
    Some (cur', rest).
Proof.
  intros Hname Hfield Hd. rewrite (dec_members_key f field cur name d) by assumption.
  rewrite Hd. reflexivity.
Qed.

Lemma dec_object_members {S : Type} (field : string -> option (decoder S))
    (cur : S) name value rest :
  dec_object field cur ("{"%char :: enc_member name value ++ rest) =
    dec_members (length (enc_member name value ++ rest)) field cur
      (enc_member name value ++ rest).
Proof.
  unfold dec_object. rewrite skip_ws_nonws by reflexivity. cbn [lit_null].
  unfold enc_member, enc_string. cbn [app].
  rewrite skip_ws_nonws by reflexivity. reflexivity.
Qed.

Ltac normalize_text := repeat (progress (cbn [app]; rewrite <- ?app_assoc)).

Ltac text_length := repeat (progress (rewrite ?length_app; cbn [length])).

Ltac valid_name :=
  unfold valid_string; cbn [list_ascii_of_string];
  repeat (apply utf8_valid_ascii; [reflexivity|]); apply utf8_valid_nil.

Ltac member lem :=
  first
    [ erewrite dec_members_comma;
      [ | valid_name | reflexivity | apply into_roundtrip; lem ]
    | erewrite dec_members_close;
      [ | valid_name | reflexivity | apply into_roundtrip; lem ] ].

Lemma dec_Peer_enc_Peer p cur tail :
  valid_Peer p -> dec_Peer cur (enc_Peer p ++ tail) = Some (p, tail).
Proof.
  intros (Hk & Hips). unfold dec_Peer, enc_Peer.
  normalize_text. rewrite dec_object_members.
  match goal with
  | |- dec_members ?n _ _ _ = _ =>
      assert (Hlen : (2 <= n)%nat) by (text_length; lia);
      set (k := n) in *; clearbody k; do 2 (destruct k as [|k]; [lia|])
  end.
  member ltac:(apply dec_string_enc_string; assumption).
  member ltac:(apply dec_string_enc_string; assumption).
  destruct p; reflexivity.
Qed.







(** *** The file *)



Lemma valid_example_Config : valid_Config example_Config.
Proof.
  unfold valid_Config, example_Config.
  cbn [PrivateKey Peers StunTurnURLs SignalAddr WgAddr WgIface IFaceBlackList].
  split; [valid_name|]. split.
  { cbn [valid_slice]. constructor; [|constructor].
    split; cbn [WgPubKey WgAllowedIps]; valid_name. }
  split.
  { cbn [valid_slice]. constructor.
    - cbn [valid_ptr]. unfold valid_URL.
      cbn [Scheme Host Port Username Password Proto].
      repeat split; first [valid_name | unfold int_range; lia].
    - constructor; [exact I | constructor]. }
  split; [valid_name|]. split; [valid_name|]. split; [valid_name|].
  cbn [valid_slice]. constructor; [valid_name|]. constructor; [valid_name|]. constructor.
Qed.



(** C10 fails for a path as well.  Written to [/dev/null], a valid
    configuration is accepted and not kept: [Write] returns nil and [Read]
    fails on the empty input. *)
Example Write_to_a_device_is_not_read_back :
  let written := Write "/etc/wiretrustee/config.json" (fun _ => "/etc/wiretrustee")
                   example_Config "/dev/null" null_fs in
  written = (null_fs, None) /\
  readable_file "/dev/null" null_fs = false /\
  exists err, Read "/dev/null" null_fs = inr err.
Proof.
  cbv zeta. split; [vm_compute; reflexivity|]. split; [vm_compute; reflexivity|].
  eexists. vm_compute. reflexivity.
Qed.

(** And written over a file that the process can write and cannot read, it
    is stored and cannot be read back: [Read] fails at [os.Open]. *)
Example Write_to_a_write_only_file_is_not_read_back :
  let path := "/etc/wiretrustee/config.json" in
  let written := Write path (fun _ => "/etc/wiretrustee") example_Config path
                   write_only_fs in
  snd written = None /\
  nodes (fst written) !! path = Some (Regular false true (Marshal example_Config)) /\
  Read path (fst written) = inr "open: permission denied".
Proof.
  cbv zeta. split; [vm_compute; reflexivity|]. split; [vm_compute; reflexivity|].
  vm_compute. reflexivity.
Qed.

End ConfigProofs.
(** ** Further properties of the engine *)

Section EngineExtras.
Context {WG : WgTypes} {ICE : Ice} {SIG : Signal}.

Ltac mrun :=
  repeat (cbn [mbind mret M_bind M_ret fst snd negb engine heap trace conns PeerMux
               stunsTurns wgIface wgIP e_iFaceBlackList with_conns with_mux] in *;
          unfold Lock, Unlock, defer, conns_lookup, conns_index, conns_store,
                 conns_delete, log, get_engine, set_conns, set_mux, panic, alloc,
                 NewConnection, mbind, mret, M_bind, M_ret in * ).

(** *** Status queries *)

Lemma RemovePeerConnection_effect peer w r w' :
  inv w -> RemovePeerConnection peer w = Some (r, w') ->
  inv w' /\ conns (engine w') = delete (WgPubKey peer) (conns (engine w)).
Proof.
  intros Hinv Hrun. split; [eapply inv_RemovePeerConnection; eassumption|].
  destruct Hinv as [Hmux Hwf].
  destruct (conns (engine w) !! WgPubKey peer) as [p|] eqn:Hk.
  - destruct (Hwf _ _ Hk) as (a & c & -> & Ha & _).
    rewrite (RemovePeerConnection_present _ _ _ _ Hmux Hk Ha) in Hrun.
    injection Hrun as _ <-. reflexivity.
  - rewrite RemovePeerConnection_absent in Hrun by assumption.
    injection Hrun as _ <-. cbn. symmetry. apply delete_id. assumption.
Qed.

(** X1: in a reachable state GetPeerConnectionStatus returns; it reads the
    map once, between taking and releasing the mutex, and changes neither
    the engine nor any connection.  It returns nil when the key has no
    entry, and otherwise the entry, which points to a connection that
    exists. *)
Theorem GetPeerConnectionStatus_finds_the_entry (w : World) (peerKey : string) :
  reachable w ->
  exists r,
    GetPeerConnectionStatus peerKey w =
      Some (r, mkWorld (engine w) (heap w)
                 (EvUnlock :: EvMapRead true peerKey :: EvLock :: trace w)) /\
    (conns (engine w) !! peerKey = None -> r = nil_ptr) /\
    (forall p, conns (engine w) !! peerKey = Some p ->
       r = p /\ exists a c, p = Ref a /\ heap w !! a = Some c).
Proof.
  intros Hreach. destruct (reachable_inv _ Hreach) as [Hmux Hwf].
  eexists. split; [apply GetPeerConnectionStatus_eq; assumption|]. split.
  - intros ->. reflexivity.
  - intros p Hk. rewrite Hk. destruct (Hwf _ _ Hk) as (a & c & -> & Ha & _).
    split; eauto.
Qed.

(** X2: once RemovePeerConnection has returned, a status query for the
    text [peer.WgPubKey] returns nil, and a query for any other text
    returns what it returned before the removal. *)
Theorem status_after_RemovePeerConnection (w : World) (peer : Peer)
    (r : option error) (w' : World) :
  reachable w ->
  RemovePeerConnection peer w = Some (r, w') ->
  (exists w'', GetPeerConnectionStatus (WgPubKey peer) w' = Some (nil_ptr, w'')) /\
  (forall k, k <> WgPubKey peer ->
     fst <$> GetPeerConnectionStatus k w' = fst <$> GetPeerConnectionStatus k w).
Proof.
  intros Hreach Hrun. pose proof (reachable_inv _ Hreach) as Hinv.
  destruct (RemovePeerConnection_effect _ _ _ _ Hinv Hrun) as [[Hmux' _] Hconns].
  destruct Hinv as [Hmux _]. split.
  - eexists. rewrite GetPeerConnectionStatus_eq by assumption.
    rewrite Hconns, lookup_delete_eq. reflexivity.
  - intros k Hne. rewrite !GetPeerConnectionStatus_eq by assumption.
    cbn. rewrite Hconns, lookup_delete_ne by congruence. reflexivity.
Qed.

(** X3: when openPeerConnection has returned, and nobody else wrote the
    key meanwhile, a status query for the key it stored under finds the
    Connection this call created, whether Open succeeded or failed; on
    success that Connection is the one the call returned. *)
Theorem status_after_openPeerConnection (w : World) (wgPort : Z) (myKey : Key)
    (peer : Peer) (o : OpenOracle) (r : ptr * option error) (w' : World) :
  reachable w ->
  Forall (fun s => step_key s <> Some (KeyString (fst (ParseKey (WgPubKey peer)))))
         (during o) ->
  openPeerConnection wgPort myKey peer o w = Some (r, w') ->
  heap w !! length (heap w) = None /\
  (r = (Ref (length (heap w)), None) \/ exists err, r = (nil_ptr, Some err)) /\
  exists w'',
    GetPeerConnectionStatus (KeyString (fst (ParseKey (WgPubKey peer)))) w'
      = Some (Ref (length (heap w)), w'').
Proof.
  intros Hreach Hall Hrun. pose proof (reachable_inv _ Hreach) as Hinv.
  pose proof (inv_openPeerConnection _ _ _ _ _ _ _ Hinv Hrun) as [Hmux' _].
  rewrite openPeerConnection_unfold in Hrun.
  destruct (blocked_in_Open wgPort myKey peer w) as [[a w2]|] eqn:Hb; [|discriminate].
  destruct (inv_blocked_in_Open _ _ _ _ _ _ Hinv Hb) as (Hinv2 & -> & _ & Hconns2).
  destruct (run_steps (during o) w2) as [[[] w3]|] eqn:Hs; [|discriminate].
  pose proof (run_steps_conns_other _ _ _ _ Hinv2 Hs Hall) as Hk3.
  rewrite Hconns2, lookup_insert_eq in Hk3.
  destruct (Open_end (length (heap w)) (outcome o) w3) as [[err w4]|] eqn:He;
    [|discriminate].
  destruct (conn_only_Open_end _ _ _ _ _ He) as [He4 _].
  assert (Hk' : conns (engine w') !! KeyString (fst (ParseKey (WgPubKey peer)))
                = Some (Ref (length (heap w)))).
  { destruct err; injection Hrun as _ <-; rewrite He4; assumption. }
  split; [apply lookup_ge_None; lia|]. split.
  - destruct err; injection Hrun as <- _; eauto.
  - eexists. rewrite GetPeerConnectionStatus_eq by assumption. rewrite Hk'. reflexivity.
Qed.

(** *** The mutex *)

Lemma run_step_guarded s w w' :
  inv w -> is_signal s = false -> run_step s w = Some (tt, w') ->
  guarded (trace w') = guarded (trace w).
Proof.
  intros [Hmux Hwf] Hs Hrun.
  destruct s as [wgPort myKey peer | a | a o | peer err | peer | peerKey | msg];
    cbn [run_step is_signal] in Hrun, Hs; try discriminate.
  - apply run_bind_unit in Hrun as [r Hrun].
    eapply registerConnection_guarded; eassumption.
  - unfold Open_begin, deref, set_status in Hrun. mrun.
    destruct (heap w !! a) as [c|]; [|discriminate].
    destruct (ConnStatus c); cbn in Hrun;
      try (destruct (heap w !! a); [|discriminate]);
      injection Hrun as <-; reflexivity.
  - apply run_bind_unit in Hrun as [r Hrun].
    destruct (heap w !! a) as [c|] eqn:Ha.
    + rewrite (Open_end_eq _ _ _ _ Ha) in Hrun.
      destruct (ConnStatus c), o; injection Hrun as _ <-; reflexivity.
    + unfold Open_end, deref in Hrun. mrun. rewrite Ha in Hrun. discriminate.
  - apply run_bind_unit in Hrun as [r Hrun].
    eapply operation_check_guarded; eassumption.
  - apply run_bind_unit in Hrun as [r Hrun].
    eapply RemovePeerConnection_guarded; eassumption.
  - apply run_bind_unit in Hrun as [r Hrun].
    eapply GetPeerConnectionStatus_guarded; eassumption.
Qed.

Lemma run_steps_guarded l w w' :
  inv w -> existsb is_signal l = false -> run_steps l w = Some (tt, w') ->
  guarded (trace w') = guarded (trace w).
Proof.
  revert w. induction l as [|s l IH]; intros w Hinv Hl Hrun.
  - cbn in Hrun. injection Hrun as <-. reflexivity.
  - cbn [existsb] in Hl. apply orb_false_elim in Hl as [Hs Hl].
    rewrite run_steps_cons in Hrun.
    destruct (run_step s w) as [[[] w1]|] eqn:Hstep; [|discriminate].
    rewrite (IH w1); [| eapply inv_run_step; eassumption | assumption | assumption].
    eapply run_step_guarded; eassumption.
Qed.

(** X4: as long as the routing handler does not run, every access to the
    connection map is made with the mutex held: whatever the other
    goroutines do, in any order, from a new engine (connections registered,
    opened, checked after an attempt, removed, queried), the trace holds no
    map access outside the mutex. *)
Theorem map_accesses_outside_the_handler_hold_the_mutex
    (stunsTurns : list URL) (wgIface wgAddr : string)
    (iFaceBlackList : gset string) (l : list Step) (w : World) :
  existsb is_signal l = false ->
  run_steps l (NewWorld (NewEngine stunsTurns wgIface wgAddr iFaceBlackList))
    = Some (tt, w) ->
  guarded (trace w) = true.
Proof.
  intros Hl Hrun.
  rewrite (run_steps_guarded _ _ _ (reachable_inv _ (reachable_new _ _ _ _)) Hl Hrun).
  reflexivity.
Qed.

(** X5: in a reachable state none of the operations that take the mutex
    blocks or fails at run time: registering a connection, removing a peer,
    querying a status and the check after an attempt all return, and each
    returns with the mutex released. *)
Theorem operations_return_with_the_mutex_released (w : World) :
  reachable w ->
  (forall wgPort myKey peer, exists a w',
     registerConnection wgPort myKey peer w = Some (a, w') /\
     PeerMux (engine w') = false) /\
  (forall peer, exists r w',
     RemovePeerConnection peer w = Some (r, w') /\ PeerMux (engine w') = false) /\
  (forall peerKey, exists r w',
     GetPeerConnectionStatus peerKey w = Some (r, w') /\
     PeerMux (engine w') = false) /\
  (forall peer err, exists r w',
     operation_check peer err w = Some (r, w') /\ PeerMux (engine w') = false).
Proof.
  intros Hreach. destruct (reachable_inv _ Hreach) as [Hmux Hwf].
  split; [|split; [|split]].
  - intros wgPort myKey peer. eexists _, _.
    split; [apply registerConnection_eq; assumption|]. assumption.
  - intros peer. destruct (conns (engine w) !! WgPubKey peer) as [p|] eqn:Hk.
    + destruct (Hwf _ _ Hk) as (a & c & -> & Ha & _). eexists _, _.
      split; [apply (RemovePeerConnection_present _ _ _ _ Hmux Hk Ha)|]. assumption.
    + eexists _, _. split; [apply RemovePeerConnection_absent; assumption|].
      assumption.
  - intros peerKey. eexists _, _.
    split; [apply GetPeerConnectionStatus_eq; assumption|]. assumption.
  - intros peer err. eexists _, _.
    split; [apply operation_check_eq; assumption|]. assumption.
Qed.

(** *** The routing handler *)

Lemma status_only_ret {A : Type} (a : A) : status_only (mret a).
Proof. intros w r w' Hrun. mrun. injection Hrun as _ <-. split; reflexivity. Qed.

Lemma status_only_bind {A B : Type} (m : M A) (f : A -> M B) :
  status_only m -> (forall a, status_only (f a)) -> status_only (m ≫= f).
Proof.
  intros Hm Hf w r w' Hrun. mrun.
  destruct (m w) as [[a w1]|] eqn:Hmw; [|discriminate].
  destruct (Hm _ _ _ Hmw) as [He1 Hh1]. destruct (Hf a _ _ _ Hrun) as [He2 Hh2].
  split; congruence.
Qed.

Lemma status_only_panic {A : Type} : status_only (panic (A := A)).
Proof. intros w r w' Hrun. discriminate. Qed.

Lemma status_only_log ev : status_only (log ev).
Proof. intros w r w' Hrun. mrun. injection Hrun as _ <-. split; reflexivity. Qed.

Lemma status_only_deref a : status_only (deref a).
Proof.
  intros w r w' Hrun. unfold deref in Hrun.
  destruct (heap w !! a); [|discriminate]. injection Hrun as _ <-. split; reflexivity.
Qed.

Lemma status_only_set_status a s : status_only (set_status a s).
Proof.
  intros w r w' Hrun. unfold set_status in Hrun.
  destruct (heap w !! a) as [c|] eqn:Ha; [|discriminate].
  injection Hrun as _ <-. split; [reflexivity|]. cbn.
  rewrite list_fmap_insert. cbn. apply list_insert_id.
  rewrite list_lookup_fmap, Ha. reflexivity.
Qed.

Lemma status_only_conns_index k : status_only (conns_index k).
Proof. intros w r w' Hrun. mrun. injection Hrun as _ <-. split; reflexivity. Qed.

Ltac status_only :=
  repeat first
    [ apply status_only_ret | apply status_only_panic | apply status_only_log
    | apply status_only_deref | apply status_only_set_status
    | apply status_only_conns_index
    | apply status_only_bind; [|intros ?]
    | match goal with |- status_only (match ?x with _ => _ end) => destruct x end
    | match goal with |- status_only (if ?x then _ else _) => destruct x end ].

Lemma status_only_handler msg : status_only (receiveSignal_handler msg).
Proof.
  unfold receiveSignal_handler, dispatch, OnOffer, OnAnswer, OnRemoteCandidate.
  status_only.
Qed.

(** X6: the routing of inbound messages never adds, replaces or removes an
    entry of the connection map, never creates a Connection and never
    changes the configuration of one: whatever the messages, after
    [receiveSignal] has handled them the engine is as it was, and the
    connections are the same ones with the same configurations. *)
Theorem receiveSignal_leaves_the_engine_alone (msgs : list Message) (w w' : World) :
  receiveSignal msgs w = Some (tt, w') ->
  engine w' = engine w /\ map Config (heap w') = map Config (heap w).
Proof.
  unfold receiveSignal. revert w. induction msgs as [|msg msgs IH]; intros w Hrun.
  - cbn in Hrun. injection Hrun as <-. split; reflexivity.
  - cbn [Receive] in Hrun. mrun.
    destruct (receiveSignal_handler msg w) as [[r w1]|] eqn:Hh; [|discriminate].
    destruct (status_only_handler _ _ _ _ Hh) as [He1 Hh1].
    destruct (IH _ Hrun) as [He2 Hh2]. split; congruence.
Qed.

(** X7: a message without body from a sender that has a Connection makes
    the handler fail at run time: [msg.GetBody()] is nil and the handler
    reads its [Type]. *)
Theorem handler_fails_on_a_message_without_body (w : World) (msg : Message)
    (p : ptr) :
  reachable w ->
  conns (engine w) !! MsgKey msg = Some p ->
  MsgBody msg = None ->
  receiveSignal_handler msg w = None.
Proof.
  intros Hreach Hk Hbody. destruct (reachable_inv _ Hreach) as [_ Hwf].
  destruct (Hwf _ _ Hk) as (a & c & -> & Ha & Hkey).
  rewrite (handler_found _ _ _ _ Hk Ha), key_mismatch_false by assumption.
  unfold dispatch. rewrite Hbody. reflexivity.
Qed.

(** X8: an OFFER or an ANSWER whose credentials do not decode is dropped:
    the handler returns the error of the decoder as it is, calls neither
    OnOffer nor OnAnswer, and leaves the engine and the connections as they
    were. *)
Theorem undecodable_credentials_are_dropped (w : World) (msg : Message)
    (body : Body) (err : error) (p : ptr) :
  reachable w ->
  conns (engine w) !! MsgKey msg = Some p ->
  MsgBody msg = Some body ->
  BodyType body = Body_OFFER \/ BodyType body = Body_ANSWER ->
  UnMarshalCredential msg = inr err ->
  receiveSignal_handler msg w =
    Some (Some err, mkWorld (engine w) (heap w)
                      (EvMapRead false (MsgKey msg) :: trace w)).
Proof.
  intros Hreach Hk Hbody Htype Hbad. destruct (reachable_inv _ Hreach) as [Hmux Hwf].
  destruct (Hwf _ _ Hk) as (a & c & -> & Ha & Hkey).
  rewrite (handler_found _ _ _ _ Hk Ha), key_mismatch_false by assumption.
  unfold dispatch. rewrite Hbody, Hmux.
  destruct Htype as [-> | ->]; rewrite Hbad; reflexivity.
Qed.

Lemma bind_error_through (m : M (option error)) w :
  (err ← m; match err with
            | Some err => mret (Some err)
            | None => mret None
            end) w = m w.
Proof. mrun. destruct (m w) as [[[e|] w1]|]; reflexivity. Qed.

(** X9: a message from a sender that has a Connection goes to that
    Connection and to the callback of its body type: an OFFER to OnOffer
    and an ANSWER to OnAnswer, with the credentials decoded from the
    message, a CANDIDATE to OnRemoteCandidate with the candidate decoded
    from the payload.  The handler does nothing else after its map read,
    and returns what the callback returns. *)
Theorem handler_calls_the_callback_of_the_body_type (w : World) (msg : Message)
    (body : Body) (a : nat) :
  reachable w ->
  conns (engine w) !! MsgKey msg = Some (Ref a) ->
  MsgBody msg = Some body ->
  let w1 := mkWorld (engine w) (heap w) (EvMapRead false (MsgKey msg) :: trace w) in
  (forall cred,
     BodyType body = Body_OFFER -> UnMarshalCredential msg = inl cred ->
     receiveSignal_handler msg w
       = OnOffer a (mkIceCredentials (UFrag cred) (Pwd cred)) w1) /\
  (forall cred,
     BodyType body = Body_ANSWER -> UnMarshalCredential msg = inl cred ->
     receiveSignal_handler msg w
       = OnAnswer a (mkIceCredentials (UFrag cred) (Pwd cred)) w1) /\
  (forall cand,
     BodyType body = Body_CANDIDATE -> UnmarshalCandidate (Payload body) = inl cand ->
     receiveSignal_handler msg w = OnRemoteCandidate a cand w1).
Proof.
  intros Hreach Hk Hbody w1. destruct (reachable_inv _ Hreach) as [Hmux Hwf].
  destruct (Hwf _ _ Hk) as (a' & c & Heq & Ha & Hkey). injection Heq as <-.
  assert (Hrun : receiveSignal_handler msg w = dispatch a msg w1).
  { rewrite (handler_found _ _ _ _ Hk Ha), key_mismatch_false by assumption.
    unfold w1. rewrite Hmux. reflexivity. }
  rewrite Hrun. unfold dispatch. rewrite Hbody.
  split; [|split].
  - intros cred -> ->. apply bind_error_through.
  - intros cred -> ->. apply bind_error_through.
  - intros cand -> ->. apply bind_error_through.
Qed.

End EngineExtras.

(** ** Further properties of the retry policy *)

Lemma duration_of_floor q : (0 <= q)%Q -> duration_of q = Qfloor q.
Proof.
  intros Hq. unfold duration_of, Qfloor. destruct q as [n d]. cbn [Qnum Qden].
  apply Z.quot_div_nonneg; [|lia]. unfold Qle in Hq. cbn in Hq. lia.
Qed.

Lemma getRandomValueFromInterval_bounds bits cur :
  0 <= cur ->
  cur / 2 <= getRandomValueFromInterval DefaultRandomizationFactor
               (Float64_of_bits bits) cur
          <= (3 * cur + 1) / 2.
Proof.
  intros Hcur. unfold getRandomValueFromInterval, DefaultRandomizationFactor.
  destruct (Float64_of_bits_range bits) as [Hr0 Hr1].
  set (r := Float64_of_bits bits) in *.
  assert (Hc : (0 <= inject_Z cur)%Q) by (unfold Qle; cbn; lia).
  set (c := inject_Z cur) in *.
  set (x := (c - (1 # 2) * c + r * (c + (1 # 2) * c - (c - (1 # 2) * c) + 1))%Q).
  assert (Hlo : (c - (1 # 2) * c <= x)%Q) by (unfold x; nra).
  assert (Hhi : (x < c + (1 # 2) * c + 1)%Q) by (unfold x; nra).
  rewrite duration_of_floor by lra.
  pose proof (Qfloor_le x) as Hfl. pose proof (Qlt_floor x) as Hfu.
  set (d := Qfloor x) in *.
  split.
  - assert (H2 : (inject_Z (2 * (cur / 2)) <= inject_Z cur)%Q).
    { rewrite <- Zle_Qle. pose proof (Z.mul_div_le cur 2). lia. }
    assert (H3 : (inject_Z (cur / 2) < inject_Z (d + 1))%Q).
    { rewrite inject_Z_mult in H2. fold c in H2.
      change (inject_Z 2) with 2%Q in H2. lra. }
    rewrite <- Zlt_Qlt in H3. lia.
  - assert (H3 : (inject_Z (2 * d) < inject_Z (3 * cur + 2))%Q).
    { rewrite inject_Z_mult, inject_Z_plus, inject_Z_mult. fold c.
      change (inject_Z 2) with 2%Q. change (inject_Z 3) with 3%Q. lra. }
    rewrite <- Zlt_Qlt in H3. apply Z.div_le_lower_bound; lia.
Qed.

Lemma NextBackOff_bounds b elapsed bits :
  policy_inv b ->
  currentInterval b / 2 <= fst (NextBackOff b elapsed bits)
                        <= (3 * currentInterval b + 1) / 2 /\
  0 <= fst (NextBackOff b elapsed bits) <= 7500 * Millisecond.
Proof.
  intros (Hel & Hmax & Hmul & Hrf & Hcur). unfold NextBackOff.
  rewrite Hel, Hrf. cbn [Z.eqb negb andb fst].
  pose proof (getRandomValueFromInterval_bounds bits (currentInterval b) ltac:(lia))
    as [Hlo Hhi].
  split; [split; assumption|]. unfold Second, Millisecond in *.
  split.
  - pose proof (Z.div_pos (currentInterval b) 2 ltac:(lia) ltac:(lia)). lia.
  - assert ((3 * currentInterval b + 1) / 2 < 7500 * 1000000 + 1)
      by (apply Z.div_lt_upper_bound; lia).
    lia.
Qed.


Lemma policy_at_inv clock random n : policy_inv (policy_at clock random n).
Proof.
  induction n as [|n IH]; cbn [policy_at].
  - apply policy_inv_Reset.
  - apply NextBackOff_policy. assumption.
Qed.

Lemma policy_at_succ clock random n :
  policy_at clock random (S n) = incrementCurrentInterval (policy_at clock random n).
Proof.
  cbn [policy_at]. pose proof (policy_at_inv clock random n) as (Hel & _).
  unfold NextBackOff. rewrite Hel. reflexivity.
Qed.

Lemma increment_at_cap b :
  policy_inv b -> currentInterval b = 5 * Second ->
  currentInterval (incrementCurrentInterval b) = 5 * Second.
Proof.
  intros (Hel & Hmax & Hmul & Hrf & Hcur) Hc. unfold incrementCurrentInterval.
  cbn [currentInterval]. rewrite Hmax, Hmul, Hc. reflexivity.
Qed.

(** X11: the intervals of the policy of InitializePeer, whatever the clock
    and the random source give: 0.5 s at first, then one and a half times
    the one before, and 5 s from the sixth failure on, for ever; from then
    on every delay is between 2.5 s and 7.5 s. *)
Theorem retry_interval_grows_to_its_cap (clock random : nat -> Z) (n : nat) :
  map (fun i => currentInterval (policy_at clock random i)) (seq 0 7)
    = [500 * Millisecond; 750 * Millisecond; 1125 * Millisecond;
       1687500000; 2531250000; 3796875000; 5 * Second] /\
  currentInterval (policy_at clock random (6 + n)) = 5 * Second /\
  2500 * Millisecond <= delay_at clock random (6 + n) <= 7500 * Millisecond.
Proof.
  assert (H6 : map (fun i => currentInterval (policy_at clock random i)) (seq 0 7)
               = [500 * Millisecond; 750 * Millisecond; 1125 * Millisecond;
                  1687500000; 2531250000; 3796875000; 5 * Second]).
  { cbn [seq map]. rewrite !policy_at_succ. cbn [policy_at]. vm_compute. reflexivity. }
  assert (Hcap : forall k, currentInterval (policy_at clock random (6 + k)) = 5 * Second).
  { induction k as [|k IH].
    - cbn [Nat.add]. rewrite !policy_at_succ. cbn [policy_at]. vm_compute. reflexivity.
    - replace (6 + S k)%nat with (S (6 + k)) by lia. rewrite policy_at_succ.
      apply increment_at_cap; [apply policy_at_inv | exact IH]. }
  split; [exact H6|]. split; [apply Hcap|].
  unfold delay_at.
  destruct (NextBackOff_bounds (policy_at clock random (6 + n)) (clock (6 + n)%nat)
              (random (6 + n)%nat) (policy_at_inv _ _ _)) as [[Hlo _] [_ Hhi]].
  rewrite Hcap in Hlo. split; [|exact Hhi].
  etransitivity; [|exact Hlo]. vm_compute. discriminate.
Qed.

(** ** Further properties of InitializePeer *)

Section InitializeExtras.
Context {WG : WgTypes} {ICE : Ice} {SIG : Signal}.

Ltac mrun :=
  repeat (cbn [mbind mret M_bind M_ret fst snd negb engine heap trace conns PeerMux
               stunsTurns wgIface wgIP e_iFaceBlackList with_conns with_mux] in *;
          unfold Lock, Unlock, defer, conns_lookup, conns_index, conns_store,
                 conns_delete, log, get_engine, set_conns, set_mux, panic, alloc,
                 NewConnection, mbind, mret, M_bind, M_ret in * ).

(** X12: [Retry] never returns an error to InitializePeer, whatever the
    attempts give and whatever the other goroutines do, so the branch
    [panic(err)] is never taken: InitializePeer returns when [Retry]
    returns, and does nothing else. *)
Theorem InitializePeer_never_panics_after_Retry (wgPort : Z) (myKey : Key)
    (peer : Peer) (rounds : list Round) (w : World) :
  InitializePeer wgPort myKey peer rounds w =
    (r ← Retry (operation wgPort myKey peer) backOff rounds;
     mret (match r with
           | Some _ => Some tt
           | None => None
           end)) w.
Proof.
  unfold InitializePeer. mrun.
  destruct (Retry (operation wgPort myKey peer) backOff rounds w)
    as [[[[e|]|] w']|] eqn:Hrun; try reflexivity.
  exfalso. unfold Retry in Hrun.
  apply (RetryLoop_never_fails _ _ _ _ _ _ policy_inv_Reset Hrun).
Qed.

Lemma InitializePeer_unfold wgPort myKey peer rounds w :
  InitializePeer wgPort myKey peer rounds w =
    match RetryLoop (operation wgPort myKey peer) (Reset backOff) rounds w with
    | Some (Some (Some _), _) => None
    | Some (Some None, w') => Some (Some tt, w')
    | Some (None, w') => Some (None, w')
    | None => None
    end.
Proof.
  unfold InitializePeer, Retry. mrun.
  destruct (RetryLoop _ _ rounds w) as [[[[e|]|] w']|]; reflexivity.
Qed.

(** X13: when the first Open succeeds and no other goroutine is at work,
    InitializePeer returns after that one attempt.  It has created exactly
    one Connection, stored it under the text of the parsed key, and left
    every earlier Connection and every other entry as it was. *)
Theorem InitializePeer_returns_after_a_successful_Open (w : World) (wgPort : Z)
    (myKey : Key) (peer : Peer) (rd : Round) (rounds : list Round) :
  reachable w ->
  during (open_oracle (attempt rd)) = [] ->
  before_check (attempt rd) = [] ->
  outcome (open_oracle (attempt rd)) = None ->
  exists c w',
    InitializePeer wgPort myKey peer (rd :: rounds) w = Some (Some tt, w') /\
    conns (engine w') =
      <[KeyString (fst (ParseKey (WgPubKey peer))) := Ref (length (heap w))]>
        (conns (engine w)) /\
    heap w' = (heap w ++ [c])%list /\
    RemoteWgKey (Config c) = fst (ParseKey (WgPubKey peer)) /\
    WgAllowedIPs (Config c) = WgAllowedIps peer /\
    WgKey (Config c) = myKey.
Proof.
  intros Hreach Hduring Hbefore Hout. pose proof (reachable_inv _ Hreach) as Hinv.
  rewrite InitializePeer_unfold, RetryLoop_cons.
  rewrite (operation_quiet _ _ _ _ _ Hinv Hduring Hbefore), Hout.
  destruct (_ !! WgPubKey peer); eexists _, _; (split; [reflexivity|]);
    cbn; repeat split; reflexivity.
Qed.

Lemma inv_operation wgPort myKey peer att w r w' :
  inv w -> operation wgPort myKey peer att w = Some (r, w') -> inv w'.
Proof.
  intros Hinv Hop. rewrite operation_unfold in Hop.
  destruct (openPeerConnection _ _ _ _ w) as [[r1 w1]|] eqn:Hopen; [|discriminate].
  pose proof (inv_openPeerConnection _ _ _ _ _ _ _ Hinv Hopen) as Hinv1.
  destruct (run_steps (before_check att) w1) as [[[] w2]|] eqn:Hs; [|discriminate].
  destruct (inv_run_steps _ _ _ Hinv1 Hs) as [Hmux2 Hwf2].
  rewrite operation_check_eq in Hop by assumption.
  injection Hop as _ <-. split; assumption.
Qed.

Lemma run_steps_app l1 l2 w :
  run_steps (l1 ++ l2) w =
    match run_steps l1 w with
    | Some (_, w1) => run_steps l2 w1
    | None => None
    end.
Proof.
  revert w. induction l1 as [|s l1 IH]; intros w.
  - reflexivity.
  - cbn [app]. rewrite !run_steps_cons.
    destruct (run_step s w) as [[[] w1]|]; [apply IH | reflexivity].
Qed.

(** X14: when RemovePeerConnection runs for the peer after its attempt
    and before the check that follows the attempt, and nobody writes the
    text [peer.WgPubKey] after that, InitializePeer returns at that check,
    whatever Open gave; and from then on a status query for that text
    returns nil. *)
Theorem InitializePeer_stops_when_the_peer_is_removed (w : World) (wgPort : Z)
    (myKey : Key) (peer : Peer) (rd : Round) (rounds : list Round)
    (r : ptr * option error) (w1 w2 : World) (pre post : list Step) :
  reachable w ->
  openPeerConnection wgPort myKey peer (open_oracle (attempt rd)) w = Some (r, w1) ->
  before_check (attempt rd) = (pre ++ StepRemove peer :: post)%list ->
  Forall (fun s => step_key s <> Some (WgPubKey peer)) post ->
  run_steps (before_check (attempt rd)) w1 = Some (tt, w2) ->
  exists w3 w4,
    InitializePeer wgPort myKey peer (rd :: rounds) w = Some (Some tt, w3) /\
    conns (engine w3) !! WgPubKey peer = None /\
    GetPeerConnectionStatus (WgPubKey peer) w3 = Some (nil_ptr, w4).
Proof.
  intros Hreach Hopen Hbefore Hpost Hsteps.
  pose proof (reachable_inv _ Hreach) as Hinv.
  pose proof (inv_openPeerConnection _ _ _ _ _ _ _ Hinv Hopen) as Hinv1.
  pose proof (inv_run_steps _ _ _ Hinv1 Hsteps) as Hinv2.
  assert (Hgone : conns (engine w2) !! WgPubKey peer = None).
  { rewrite Hbefore, run_steps_app in Hsteps.
    destruct (run_steps pre w1) as [[[] wa]|] eqn:Hpre; [|discriminate].
    pose proof (inv_run_steps _ _ _ Hinv1 Hpre) as Hinva.
    rewrite run_steps_cons in Hsteps.
    destruct (run_step (StepRemove peer) wa) as [[[] wb]|] eqn:Hrm; [|discriminate].
    cbn [run_step] in Hrm. apply run_bind_unit in Hrm as [e Hrm].
    destruct (RemovePeerConnection_effect _ _ _ _ Hinva Hrm) as [Hinvb Hconns].
    rewrite (run_steps_conns_other _ _ _ _ Hinvb Hsteps Hpost).
    rewrite Hconns. apply lookup_delete_eq. }
  destruct Hinv2 as [Hmux2 _].
  eexists _, _. split; [|split].
  - rewrite InitializePeer_unfold, RetryLoop_cons, operation_unfold, Hopen, Hsteps.
    rewrite operation_check_eq by assumption. rewrite Hgone. reflexivity.
  - exact Hgone.
  - rewrite GetPeerConnectionStatus_eq by assumption. cbn. rewrite Hgone. reflexivity.
Qed.

Lemma quiet_failure_true rd :
  quiet_failure rd = true ->
  during (open_oracle (attempt rd)) = [] /\ before_check (attempt rd) = [] /\
  sleeping rd = [] /\ exists err, outcome (open_oracle (attempt rd)) = Some err.
Proof.
  unfold quiet_failure.
  destruct (during _), (before_check _), (sleeping rd), (outcome _);
    try discriminate. eauto.
Qed.

Lemma events_since_app evs t : events_since t (evs ++ t) = evs.
Proof.
  unfold events_since. rewrite length_app.
  replace (length evs + length t - length t)%nat with (length evs) by lia.
  apply take_app_length.
Qed.

Lemma RetryLoop_quiet_failures wgPort myKey peer rounds :
  KeyString (fst (ParseKey (WgPubKey peer))) = WgPubKey peer ->
  forall rd b w,
    forallb quiet_failure (rd :: rounds) = true ->
    policy_inv b -> inv w ->
    exists new evs w',
      RetryLoop (operation wgPort myKey peer) b (rd :: rounds) w = Some (None, w') /\
      heap w' = (heap w ++ new)%list /\ length new = S (length rounds) /\
      conns (engine w') =
        <[WgPubKey peer := Ref (length (heap w) + length rounds)]> (conns (engine w)) /\
      trace w' = (evs ++ trace w)%list /\ existsb is_close evs = false.
Proof.
  intros Hcanon. induction rounds as [|rd' rounds IH]; intros rd b w Hall Hpol Hinv.
  - cbn [forallb] in Hall. apply andb_prop in Hall as [Hrd _].
    destruct (quiet_failure_true _ Hrd) as (Hduring & Hbefore & Hsleep & err & Hout).
    destruct (NextBackOff_policy b (elapsed rd) (random_bits rd) Hpol) as [Hnext _].
    apply Z.eqb_neq in Hnext.
    rewrite RetryLoop_cons, (operation_quiet _ _ _ _ _ Hinv Hduring Hbefore).
    rewrite Hcanon, lookup_insert_eq, Hout, Hnext, Hsleep.
    eexists [_], [_; _; _; _; _; _; _; _], _.
    split; [reflexivity|]. cbn. rewrite Nat.add_0_r.
    repeat split; reflexivity.
  - cbn [forallb] in Hall. apply andb_prop in Hall as [Hrd Hall].
    destruct (quiet_failure_true _ Hrd) as (Hduring & Hbefore & Hsleep & err & Hout).
    destruct (NextBackOff_policy b (elapsed rd) (random_bits rd) Hpol) as [Hnext Hpol'].
    apply Z.eqb_neq in Hnext.
    pose proof (inv_operation wgPort myKey peer (attempt rd) w _ _ Hinv
                  (operation_quiet _ _ _ _ _ Hinv Hduring Hbefore)) as Hinv1.
    rewrite Hcanon, Hout in Hinv1.
    rewrite RetryLoop_cons, (operation_quiet _ _ _ _ _ Hinv Hduring Hbefore).
    rewrite Hcanon, lookup_insert_eq, Hout, Hnext, Hsleep.
    cbn [run_steps]. mrun.
    destruct (IH rd' _ _ Hall Hpol' Hinv1)
      as (new & evs & w' & Hrun & Hheap & Hlen & Hconns & Htr & Hcl).
    eexists (_ :: new), (evs ++ [_; _; _; _; _; _; _; _])%list, w'.
    split; [exact Hrun|]. cbn [heap engine conns trace with_conns length] in *.
    split; [rewrite Hheap, <- app_assoc; reflexivity|].
    split; [rewrite Hlen; reflexivity|].
    split.
    { rewrite Hconns, insert_insert_eq, length_app. cbn [length].
      replace (length (heap w) + 1 + length rounds)%nat
        with (length (heap w) + S (length rounds))%nat by lia.
      reflexivity. }
    split; [rewrite Htr, <- app_assoc; reflexivity|].
    rewrite existsb_app, Hcl. reflexivity.
Qed.

(** X15: every attempt that fails leaves a Connection behind.  For a peer
    whose key is the text of the key it parses to, while no other goroutine
    is at work and Open keeps failing, InitializePeer is still running
    after any number of attempts; each attempt has created one more
    Connection; the map holds one entry for the peer, the Connection of
    the last attempt; and Close was never called, so the Connections of the
    earlier attempts are out of the map and still open. *)
Theorem failed_attempts_leave_connections_behind (w : World) (wgPort : Z)
    (myKey : Key) (peer : Peer) (rd : Round) (rounds : list Round) :
  reachable w ->
  KeyString (fst (ParseKey (WgPubKey peer))) = WgPubKey peer ->
  forallb quiet_failure (rd :: rounds) = true ->
  exists new w',
    InitializePeer wgPort myKey peer (rd :: rounds) w = Some (None, w') /\
    heap w' = (heap w ++ new)%list /\ length new = S (length rounds) /\
    conns (engine w') =
      <[WgPubKey peer := Ref (length (heap w) + length rounds)]> (conns (engine w)) /\
    existsb is_close (events_since (trace w) (trace w')) = false.
Proof.
  intros Hreach Hcanon Hall.
  destruct (RetryLoop_quiet_failures wgPort myKey peer rounds Hcanon rd (Reset backOff) w
              Hall policy_inv_Reset (reachable_inv _ Hreach))
    as (new & evs & w' & Hrun & Hheap & Hlen & Hconns & Htr & Hcl).
  exists new, w'. rewrite InitializePeer_unfold, Hrun.
  split; [reflexivity|]. repeat (split; [assumption|]).
  rewrite Htr, events_since_app. exact Hcl.
Qed.

End InitializeExtras.

(** ** Starting the engine, and adding a peer over HTTP *)

Section StartExtras.
Context {WG : WgTypes} {ICE : Ice} {SIG : Signal}.

Lemma Unmarshal_Peer_enc_Peer (peer cur : Peer) :
  cmd.valid_Peer peer -> Unmarshal_Peer (cmd.enc_Peer peer) cur = inl peer.
Proof.
  intros Hpeer. unfold Unmarshal_Peer.
  rewrite <- (app_nil_r (cmd.enc_Peer peer)).
  rewrite dec_Peer_enc_Peer by assumption. reflexivity.
Qed.

(** X18: the handler of [/peer] starts InitializePeer for the peer whose
    JSON it is sent, with the port and the key of [Start]: for every peer
    whose two strings are valid UTF-8, a request whose body is
    [json.Marshal(peer)] starts [InitializePeer] for exactly that peer.  A
    body that cannot be read, and an empty body, start nothing. *)
Theorem peer_handler_starts_the_peer_it_is_sent (wgPort : Z) (myKey : Key)
    (peer : Peer) :
  cmd.valid_Peer peer ->
  peer_handler wgPort myKey (inl (cmd.enc_Peer peer))
    = Some (ActInitializePeer wgPort myKey peer) /\
  (forall err, peer_handler wgPort myKey (inr err) = None) /\
  peer_handler wgPort myKey (inl []) = None.
Proof.
  intros Hpeer. unfold peer_handler.
  rewrite Unmarshal_Peer_enc_Peer by assumption.
  split; [reflexivity|]. split; reflexivity.
Qed.


End StartExtras.
(** ** The further properties on examples *)

Section ExtraExamples.
#[local] Existing Instance wgtypes_model.
#[local] Existing Instance ice_model.
#[local] Existing Instance signal_model.

(** X1 at a query for [peerB], connected. *)
Lemma GetPeerConnectionStatus_finds_the_entry_witness :
  exists w',
    GetPeerConnectionStatus kB world_connected = Some (Ref 0, w') /\
    engine w' = engine world_connected /\ heap w' = heap world_connected.
Proof.
  destruct (GetPeerConnectionStatus_finds_the_entry world_connected kB
              reachable_world_connected) as (r & Hrun & _ & Hsome).
  assert (Hk : conns (engine world_connected) !! kB = Some (Ref 0))
    by (vm_compute; reflexivity).
  destruct (Hsome _ Hk) as [Hr _]. rewrite Hr in Hrun.
  eexists. split; [exact Hrun|]. split; reflexivity.
Defined.

(** X2 at the removal of [peerB], connected. *)
Lemma status_after_RemovePeerConnection_witness :
  exists w' w'',
    RemovePeerConnection peerB world_connected = Some (None, w') /\
    GetPeerConnectionStatus kB w' = Some (nil_ptr, w'').
Proof.
  pose (w' := after (RemovePeerConnection peerB) world_connected).
  assert (Hrun : RemovePeerConnection peerB world_connected = Some (None, w'))
    by (vm_compute; reflexivity).
  destruct (status_after_RemovePeerConnection world_connected peerB None w'
              reachable_world_connected Hrun) as [[w'' Hst] _].
  exists w', w''. split; assumption.
Defined.

(** X3 at an Open of [peerB] that times out while its status is queried. *)
Lemma status_after_openPeerConnection_witness :
  exists w' w'',
    openPeerConnection 51820 keyA peerB (mkOpenOracle [StepStatus kB] (Some "timeout"))
      world0 = Some ((nil_ptr, Some "timeout"), w') /\
    GetPeerConnectionStatus kB w' = Some (Ref 0, w'').
Proof.
  pose (o := mkOpenOracle [StepStatus kB] (Some "timeout")).
  pose (w' := after (openPeerConnection 51820 keyA peerB o) world0).
  assert (Hrun : openPeerConnection 51820 keyA peerB o world0
                 = Some ((nil_ptr, Some "timeout"), w'))
    by (vm_compute; reflexivity).
  assert (Hall : Forall (fun s => step_key s
                           <> Some (KeyString (fst (ParseKey (WgPubKey peerB)))))
                        (during o))
    by (constructor; [discriminate | constructor]).
  assert (Hkey : KeyString (fst (ParseKey (WgPubKey peerB))) = kB)
    by (vm_compute; reflexivity).
  destruct (status_after_openPeerConnection world0 51820 keyA peerB o _ w'
              reachable_world0 Hall Hrun) as (_ & _ & w'' & Hst).
  rewrite Hkey in Hst. exists w', w''. split; [exact Hrun | exact Hst].
Defined.

(** X4 at [busy_steps]. *)
Lemma map_accesses_outside_the_handler_hold_the_mutex_witness :
  exists w,
    run_steps busy_steps world0 = Some (tt, w) /\
    length (trace w) = 16%nat /\ guarded (trace w) = true.
Proof.
  pose (w := after (run_steps busy_steps) world0).
  assert (Hrun : run_steps busy_steps
                   (NewWorld (NewEngine [] "wt0" "10.30.30.1/24" ∅)) = Some (tt, w))
    by (vm_compute; reflexivity).
  exists w. split; [exact Hrun|]. split; [vm_compute; reflexivity|].
  exact (map_accesses_outside_the_handler_hold_the_mutex [] "wt0" "10.30.30.1/24" ∅
           busy_steps w eq_refl Hrun).
Defined.

(** X5 at the removal of [peerB] while its Open is blocked. *)
Lemma operations_return_with_the_mutex_released_witness :
  exists r w',
    RemovePeerConnection peerB world_blocked = Some (r, w') /\
    PeerMux (engine w') = false.
Proof.
  destruct (operations_return_with_the_mutex_released world_blocked
              reachable_world_blocked) as (_ & Hremove & _).
  exact (Hremove peerB).
Defined.

(** X6 at four messages that arrive while the Open of [peerB] is blocked. *)
Lemma receiveSignal_leaves_the_engine_alone_witness :
  exists w',
    receiveSignal [offer_from_B; bad_candidate; offer_from_unknown; good_candidate]
      world_blocked = Some (tt, w') /\
    engine w' = engine world_blocked /\
    map Config (heap w') = map Config (heap world_blocked).
Proof.
  pose (msgs := [offer_from_B; bad_candidate; offer_from_unknown; good_candidate]).
  pose (w' := after (receiveSignal msgs) world_blocked).
  assert (Hrun : receiveSignal msgs world_blocked = Some (tt, w'))
    by (vm_compute; reflexivity).
  exists w'. split; [exact Hrun|].
  exact (receiveSignal_leaves_the_engine_alone msgs world_blocked w' Hrun).
Defined.

(** X7 at a message of [peerB] without body. *)
Lemma handler_fails_on_a_message_without_body_witness :
  receiveSignal_handler no_body_from_B world_connected = None.
Proof.
  assert (Hk : conns (engine world_connected) !! MsgKey no_body_from_B = Some (Ref 0))
    by (vm_compute; reflexivity).
  exact (handler_fails_on_a_message_without_body world_connected no_body_from_B
           (Ref 0) reachable_world_connected Hk eq_refl).
Defined.

(** X8 at an OFFER of [peerB] without the colon between the credentials. *)
Lemma undecodable_credentials_are_dropped_witness :
  receiveSignal_handler bad_offer_from_B world_connected =
    Some (Some "error parsing message body",
          mkWorld (engine world_connected) (heap world_connected)
            (EvMapRead false kB :: trace world_connected)).
Proof.
  assert (Hk : conns (engine world_connected) !! MsgKey bad_offer_from_B
               = Some (Ref 0))
    by (vm_compute; reflexivity).
  assert (Hbad : UnMarshalCredential bad_offer_from_B
                 = inr "error parsing message body")
    by (vm_compute; reflexivity).
  exact (undecodable_credentials_are_dropped world_connected bad_offer_from_B
           (mkBody Body_OFFER (list_byte_of_string "no-colon"))
           "error parsing message body" (Ref 0) reachable_world_connected Hk eq_refl
           (or_introl eq_refl) Hbad).
Defined.

(** X9 at an OFFER of [peerB] that arrives while its Open is blocked. *)
Lemma handler_calls_the_callback_of_the_body_type_witness :
  receiveSignal_handler offer_from_B world_blocked =
    OnOffer 0 (mkIceCredentials "ufragB" "pwdB")
      (mkWorld (engine world_blocked) (heap world_blocked)
         (EvMapRead false kB :: trace world_blocked)).
Proof.
  assert (Hk : conns (engine world_blocked) !! MsgKey offer_from_B = Some (Ref 0))
    by (vm_compute; reflexivity).
  assert (Hcred : UnMarshalCredential offer_from_B = inl (mkCredential "ufragB" "pwdB"))
    by (vm_compute; reflexivity).
  destruct (handler_calls_the_callback_of_the_body_type world_blocked offer_from_B
              (mkBody Body_OFFER (list_byte_of_string "ufragB:pwdB")) 0
              reachable_world_blocked Hk eq_refl) as (Hoffer & _ & _).
  exact (Hoffer (mkCredential "ufragB" "pwdB") eq_refl Hcred).
Defined.


(** X13 at [peerB], whose first Open succeeds. *)
Lemma InitializePeer_returns_after_a_successful_Open_witness :
  exists w',
    InitializePeer 51820 keyA peerB [quiet_success; quiet_timeout] world0
      = Some (Some tt, w') /\
    conns (engine w') !! kB = Some (Ref 0) /\
    length (heap w') = 1%nat.
Proof.
  destruct (InitializePeer_returns_after_a_successful_Open world0 51820 keyA peerB
              quiet_success [quiet_timeout] reachable_world0 eq_refl eq_refl eq_refl)
    as (c & w' & Hrun & Hconns & Hheap & _).
  exists w'. split; [exact Hrun|]. split.
  - rewrite Hconns. vm_compute. reflexivity.
  - rewrite Hheap. reflexivity.
Defined.

(** X14 at [peerB], removed while its first attempt is under way. *)
Lemma InitializePeer_stops_when_the_peer_is_removed_witness :
  exists w3 w4,
    InitializePeer 51820 keyA peerB [removed_meanwhile; quiet_timeout] world0
      = Some (Some tt, w3) /\
    GetPeerConnectionStatus kB w3 = Some (nil_ptr, w4).
Proof.
  pose (o := mkOpenOracle [] (Some "timeout")).
  pose (w1 := after (openPeerConnection 51820 keyA peerB o) world0).
  pose (w2 := after (run_steps [StepStatus kB; StepRemove peerB; StepStatus kA]) w1).
  assert (Hopen : openPeerConnection 51820 keyA peerB
                    (open_oracle (attempt removed_meanwhile)) world0
                  = Some ((nil_ptr, Some "timeout"), w1))
    by (vm_compute; reflexivity).
  assert (Hsteps : run_steps (before_check (attempt removed_meanwhile)) w1
                   = Some (tt, w2))
    by (vm_compute; reflexivity).
  assert (Hpost : Forall (fun s => step_key s <> Some (WgPubKey peerB))
                         [StepStatus kA])
    by (constructor; [discriminate | constructor]).
  destruct (InitializePeer_stops_when_the_peer_is_removed world0 51820 keyA peerB
              removed_meanwhile [quiet_timeout] _ w1 w2 [StepStatus kB]
              [StepStatus kA] reachable_world0 Hopen eq_refl Hpost Hsteps)
    as (w3 & w4 & Hrun & _ & Hst).
  exists w3, w4. split; assumption.
Defined.

(** X15 at three attempts for [peerB] that all time out. *)
Lemma failed_attempts_leave_connections_behind_witness :
  exists new w',
    InitializePeer 51820 keyA peerB [quiet_timeout; quiet_timeout; quiet_timeout]
      world0 = Some (None, w') /\
    heap w' = (heap world0 ++ new)%list /\ length new = 3%nat /\
    conns (engine w') !! kB = Some (Ref 2) /\
    existsb is_close (events_since (trace world0) (trace w')) = false.
Proof.
  assert (Hcanon : KeyString (fst (ParseKey (WgPubKey peerB))) = WgPubKey peerB)
    by (vm_compute; reflexivity).
  destruct (failed_attempts_leave_connections_behind world0 51820 keyA peerB
              quiet_timeout [quiet_timeout; quiet_timeout] reachable_world0 Hcanon
              eq_refl)
    as (new & w' & Hrun & Hheap & Hlen & Hconns & Hclose).
  exists new, w'. split; [exact Hrun|]. split; [exact Hheap|].
  split; [exact Hlen|]. split; [|exact Hclose].
  rewrite Hconns. apply lookup_insert_eq.
Defined.

(** X18 at the JSON of [peerB]. *)
Lemma peer_handler_starts_the_peer_it_is_sent_witness :
  peer_handler 51820 keyA (inl (cmd.enc_Peer peerB))
    = Some (ActInitializePeer 51820 keyA peerB).
Proof.
  assert (Hpeer : cmd.valid_Peer peerB).
  { destruct valid_example_Config as (_ & Hpeers & _).
    exact (Forall_inv Hpeers). }
  destruct (peer_handler_starts_the_peer_it_is_sent (WG := wgtypes_model) 51820 keyA
              peerB Hpeer)
    as [Hstart _].
  exact Hstart.
Defined.

End ExtraExamples.
